(** * LEDKontroller: a shallow embedding of LEDKontroller.ino

    The sketch drives three PWM channels from one binary remote line.
    The embedding follows the sketch function by function.  The board is
    an Arduino Uno R3 (ATmega328P): [int] is 16 bits wide, [long] and
    [unsigned long] are 32 bits wide.

    The hardware is an environment the program can only observe:
    - the interrupt handler [updateState] may run between any two
      observations and overwrite the flag [remoteState];
    - [millis()] reads a free-running millisecond counter;
    - [random()] reads the core's generator.
    Time is cut into instants.  One instant elapses before every
    observation of the environment (a read of the volatile flag, a call
    of [millis()], a call of [delay()]); what happened during that
    instant is given by the environment record. *)

From Stdlib Require Import ZArith List Bool Lia String.
Import ListNotations.
Open Scope Z_scope.

(** ** Machine integers *)

(** [int] on the ATmega328P: 16 bits, two's complement. *)
Definition int16 (z : Z) : Z := (z + 32768) mod 65536 - 32768.

(** [unsigned long], and the cast [(unsigned long)x]: 32 bits. *)
Definition ulong (z : Z) : Z := z mod 4294967296.

(** ** Constants of the sketch *)

Definition remoteIn : Z := 2.
Definition rLed : Z := 9.
Definition gLed : Z := 10.
Definition bLed : Z := 11.
Definition ledPins (i : Z) : Z := nth (Z.to_nat i) [rLed; gLed; bLed] 0.
Definition fastPollMillis : Z := 100.

(** ** Environment and program state *)

(** What the hardware did during each instant.
    [irq k]: the level sampled by the last run of the interrupt handler
    during instant [k], if the handler ran at all;
    [clock k]: the millisecond counter at the end of instant [k];
    [entropy n]: the raw value of the [n]-th call of the generator. *)
Record Env : Type := mkEnv {
  irq : nat -> option bool;
  clock : nat -> Z;
  entropy : nat -> Z
}.

(** The messages handed to [debug].  The serial sink is compiled in only
    when DEBUG is defined; the messages are kept in a ghost log that no
    decision of the program reads. *)
Inductive DebugMsg : Type :=
| HIGH (t : Z)
| LOW (t : Z)
| PROG (n : Z) (name : string)
| HIBERNATE (t : Z).

(** Global variables of the sketch, the instant reached, the calls of
    [analogWrite] so far (newest first) and the number of random draws.
    [moments] runs in step with [out]: it holds, for each call of
    [analogWrite], the instant at which the call was made.  Like the log
    it is ghost state that no decision of the program reads. *)
Record World : Type := mkWorld {
  now : nat;
  remoteState : bool;
  lastOn : Z;
  lastOff : Z;
  out : list (Z * Z);
  draws : nat;
  log : list DebugMsg;
  moments : list nat
}.

(** State of the globals when [setup] has run. *)
Definition boot : World := mkWorld 0 false 0 0 [] 0 [] [].

Definition set_now (n : nat) (w : World) : World :=
  mkWorld n (remoteState w) (lastOn w) (lastOff w) (out w) (draws w) (log w)
          (moments w).
Definition set_remoteState (b : bool) (w : World) : World :=
  mkWorld (now w) b (lastOn w) (lastOff w) (out w) (draws w) (log w)
          (moments w).
Definition set_lastOn (t : Z) (w : World) : World :=
  mkWorld (now w) (remoteState w) t (lastOff w) (out w) (draws w) (log w)
          (moments w).
Definition set_lastOff (t : Z) (w : World) : World :=
  mkWorld (now w) (remoteState w) (lastOn w) t (out w) (draws w) (log w)
          (moments w).
Definition set_out (o : list (Z * Z)) (w : World) : World :=
  mkWorld (now w) (remoteState w) (lastOn w) (lastOff w) o (draws w) (log w)
          (moments w).
Definition set_draws (n : nat) (w : World) : World :=
  mkWorld (now w) (remoteState w) (lastOn w) (lastOff w) (out w) n (log w)
          (moments w).
Definition set_log (l : list DebugMsg) (w : World) : World :=
  mkWorld (now w) (remoteState w) (lastOn w) (lastOff w) (out w) (draws w) l
          (moments w).
Definition set_moments (m : list nat) (w : World) : World :=
  mkWorld (now w) (remoteState w) (lastOn w) (lastOff w) (out w) (draws w)
          (log w) m.

(** ** The monad: state, and failure when the fuel of a loop runs out *)

Definition M (A : Type) : Type := World -> option (A * World).

Definition ret {A} (a : A) : M A := fun w => Some (a, w).
Definition bind {A B} (m : M A) (k : A -> M B) : M B :=
  fun w => match m w with
           | Some (a, w') => k a w'
           | None => None
           end.
Definition fail {A} : M A := fun _ => None.
Definition gets {A} (f : World -> A) : M A := fun w => Some (f w, w).
Definition modify (f : World -> World) : M unit := fun w => Some (tt, f w).

Notation "x <- m ;; k" := (bind m (fun x => k))
  (at level 61, m at next level, right associativity).
Notation "m ;; k" := (bind m (fun _ => k))
  (at level 61, right associativity).

(** Control flow out of a loop body. *)
Inductive flow (S : Type) : Type :=
| Continue (s : S)
| Break (s : S).
Arguments Continue {S} s.
Arguments Break {S} s.

(** [while (cond) { body }] over the loop-carried variables [s].  The
    body receives the remaining fuel for the loops it contains. *)
Fixpoint while_ {S} (fuel : nat) (cond : M bool)
    (body : nat -> S -> M (flow S)) (s : S) : M S :=
  match fuel with
  | O => fail
  | Datatypes.S n =>
      c <- cond ;;
      if c then
        r <- body n s ;;
        match r with
        | Continue s' => while_ n cond body s'
        | Break s' => ret s'
        end
      else ret s
  end.

(** [for (int i = ...; ...; i++) { body }] over the values [idx] of [i]. *)
Fixpoint for_ {S} (idx : list Z) (body : Z -> S -> M S) (s : S) : M S :=
  match idx with
  | [] => ret s
  | i :: rest => s' <- body i s ;; for_ rest body s'
  end.

Section Sketch.

Variable e : Env.

(** ** Hardware primitives *)

(** [updateState]: the handler attached to CHANGE on pin [remoteIn];
    [level] is what [digitalRead(remoteIn)] returns inside it. *)
Definition updateState (level : bool) (w : World) : World :=
  set_remoteState level w.

(** One instant elapses: the handler may have run. *)
Definition elapse (w : World) : World :=
  let w1 := set_now (S (now w)) w in
  match irq e (S (now w)) with
  | Some level => updateState level w1
  | None => w1
  end.

Definition tick : M unit := modify elapse.

(** A read of the volatile flag. *)
Definition read_remoteState : M bool := tick ;; gets remoteState.

(** [millis()]. *)
Definition millis : M Z := tick ;; gets (fun w => ulong (clock e (now w))).

(** [delay(ms)]: the core's blocking wait.  The clock of the environment
    accounts for the time that passes. *)
Definition delay (ms : Z) : M unit := tick.

(** [random(min, max)] of the Arduino core: [min] when [min >= max],
    else [min + raw % (max - min)]. *)
Definition random2 (lo hi : Z) : M Z :=
  if hi <=? lo then ret lo
  else
    n <- gets draws ;;
    modify (set_draws (S n)) ;;
    ret (lo + Z.rem (Z.abs (entropy e n)) (hi - lo)).

(** [random(max)]. *)
Definition random1 (hi : Z) : M Z :=
  if hi =? 0 then ret 0
  else
    n <- gets draws ;;
    modify (set_draws (S n)) ;;
    ret (Z.rem (Z.abs (entropy e n)) hi).

(** [debug(msg)]. *)
Definition debug (m : DebugMsg) : M unit :=
  modify (fun w => set_log (m :: log w) w).

(** ** Signal monitor *)

Definition millisSinceLastOff : M Z :=
  t <- millis ;; l <- gets lastOff ;; ret (ulong (t - l)).

Definition millisSinceLastOn : M Z :=
  t <- millis ;; l <- gets lastOn ;; ret (ulong (t - l)).

(** [switchOn()].  C++ leaves the order of the two calls in each
    comparison open; here the left operand is evaluated first.  The flag
    is read a second time for the return value. *)
Definition switchOn : M bool :=
  rs <- read_remoteState ;;
  (if rs then
     a <- millisSinceLastOff ;;
     b <- millisSinceLastOn ;;
     if a <=? b then
       t <- millis ;;
       modify (set_lastOn t) ;;
       l <- gets lastOn ;;
       debug (HIGH l)
     else ret tt
   else
     a <- millisSinceLastOn ;;
     b <- millisSinceLastOff ;;
     if a <? b then
       t <- millis ;;
       modify (set_lastOff t) ;;
       l <- gets lastOff ;;
       debug (LOW l)
     else ret tt) ;;
  read_remoteState.

(** ** Interruptible wait *)

(** [belay(period)]: [period] is a [long]; the body of the loop only
    tests the clock. *)
Definition belay (fuel : nat) (period : Z) : M unit :=
  start <- millis ;;
  while_ fuel read_remoteState
    (fun _ (_ : unit) =>
       t <- millis ;;
       if ulong period <=? ulong (t - start) then ret (Break tt)
       else ret (Continue tt))
    tt.

(** ** Channel output *)

(** The effect of [analogWrite(led, brightness)] on the state: the call
    is recorded together with the instant at which it is made. *)
Definition analogWrite (led brightness : Z) (w : World) : World :=
  set_moments (now w :: moments w) (set_out ((led, brightness) :: out w) w).

(** [setLed(led, brightness)]: one call of [analogWrite]. *)
Definition setLed (led brightness : Z) : M unit :=
  modify (analogWrite led brightness).

Definition ledsOff : M unit :=
  setLed rLed 0 ;; setLed gLed 0 ;; setLed bLed 0.

(** ** Effect programs *)

(** Static color. *)
Definition staticColorProgram (fuel : nat) (r g b : Z) : M unit :=
  setLed rLed r ;;
  setLed gLed g ;;
  setLed bLed b ;;
  while_ fuel switchOn
    (fun _ (_ : unit) => delay fastPollMillis ;; ret (Continue tt)) tt ;;
  ledsOff.

(** The bounce step shared by the two fade programs: the loop-carried
    variables are [(brightness, fadeAmount)]. *)
Definition bounce (s : Z * Z) : Z * Z :=
  let brightness := int16 (fst s + snd s) in
  let fadeAmount :=
    if (brightness <=? 0) || (255 <=? brightness) then int16 (- snd s)
    else snd s in
  (brightness, fadeAmount).

(** Sequential fade.  The parameter [fadeAmount] is assigned inside the
    inner loop and so is carried by all three loops. *)
Definition fadeLedProgram (fuel : nat) (fadeAmount delayMillis : Z) : M unit :=
  while_ fuel switchOn
    (fun n fadeAmount =>
       fadeAmount' <-
         for_ [0; 1; 2]
           (fun i fadeAmount =>
              s <- while_ n read_remoteState
                     (fun n' s =>
                        let s' := bounce s in
                        setLed (ledPins i) (fst s') ;;
                        belay n' delayMillis ;;
                        if fst s' <=? 0 then ret (Break s')
                        else ret (Continue s'))
                     (0, fadeAmount) ;;
              ret (snd s))
           fadeAmount ;;
       ret (Continue fadeAmount'))
    fadeAmount ;;
  ledsOff.

(** Synchronized fade. *)
Definition alt_fadeLedProgram (fuel : nat) (fadeAmount delayMillis : Z)
    : M unit :=
  while_ fuel switchOn
    (fun n s =>
       let s' := bounce s in
       setLed rLed (fst s') ;;
       setLed gLed (fst s') ;;
       setLed bLed (fst s') ;;
       belay n delayMillis ;;
       ret (Continue s'))
    (0, fadeAmount) ;;
  ledsOff.

(** Running colors. *)
Definition runningColorsProgram (fuel : nat) (delayMillis : Z) : M unit :=
  while_ fuel switchOn
    (fun n (_ : unit) =>
       for_ [0; 1; 2]
         (fun i (_ : unit) =>
            setLed (ledPins i) 255 ;;
            belay n delayMillis ;;
            setLed (ledPins i) 0)
         tt ;;
       ret (Continue tt))
    tt ;;
  ledsOff.

(** Blink.  [delayMillis/2] is the division of C, which truncates. *)
Definition blinkLedProgram (fuel : nat) (delayMillis : Z) : M unit :=
  while_ fuel switchOn
    (fun n (_ : unit) =>
       setLed rLed 255 ;;
       setLed gLed 255 ;;
       setLed bLed 255 ;;
       belay n delayMillis ;;
       ledsOff ;;
       belay n (Z.quot delayMillis 2) ;;
       ret (Continue tt))
    tt ;;
  ledsOff.

(** Color blaster. *)
Definition colorBlasterProgram (fuel : nat) (delayMillis : Z) : M unit :=
  while_ fuel switchOn
    (fun n (_ : unit) =>
       r <- random2 1 256 ;; setLed rLed (int16 r) ;;
       g <- random2 1 256 ;; setLed gLed (int16 g) ;;
       b <- random2 1 256 ;; setLed bLed (int16 b) ;;
       belay n delayMillis ;;
       ret (Continue tt))
    tt ;;
  ledsOff.

(** Alternative color blaster.  C++ leaves the order of the two draws in
    [setLed(ledPins[random(3)], random(1, 256))] open; here the channel
    is drawn first. *)
Definition alt_colorBlasterProgram (fuel : nat) (delayMillis : Z) : M unit :=
  r <- random2 1 256 ;; setLed rLed (int16 r) ;;
  g <- random2 1 256 ;; setLed gLed (int16 g) ;;
  b <- random2 1 256 ;; setLed bLed (int16 b) ;;
  while_ fuel switchOn
    (fun n (_ : unit) =>
       i <- random1 3 ;;
       v <- random2 1 256 ;;
       setLed (ledPins i) (int16 v) ;;
       belay n delayMillis ;;
       ret (Continue tt))
    tt ;;
  ledsOff.

(** ** Program manager *)

(** The [switch (program)] of [loop]: the effect run for a value of the
    counter, [None] for the [default] label. *)
Definition dispatch (fuel : nat) (program : Z) : option (M unit) :=
  match program with
  | 0 => Some (debug (PROG 1 "Static Color") ;;
               staticColorProgram fuel 25 255 25)
  | 1 => Some (debug (PROG 2 "Fancy Fade") ;;
               fadeLedProgram fuel 5 30)
  | 2 => Some (debug (PROG 3 "Alt Fancy Fade") ;;
               alt_fadeLedProgram fuel 5 30)
  | 3 => Some (debug (PROG 4 "Running Colors") ;;
               runningColorsProgram fuel 80)
  | 4 => Some (debug (PROG 5 "Maniac Disco") ;;
               blinkLedProgram fuel 350)
  | 5 => Some (debug (PROG 6 "Random Color") ;;
               colorBlasterProgram fuel 500)
  | 6 => Some (debug (PROG 7 "Alt Random Color") ;;
               alt_colorBlasterProgram fuel 250)
  | _ => None
  end.

(** Hibernation: [while (!remoteState) delay(fastPollMillis)]. *)
Definition hibernate (fuel : nat) : M unit :=
  while_ fuel (rs <- read_remoteState ;; ret (negb rs))
    (fun _ (_ : unit) => delay fastPollMillis ;; ret (Continue tt)) tt.

(** One pass through the body of [while (true)] in [loop]; the result is
    the program counter at the end of the pass.  [continue] under the
    [default] label ends the pass with the counter at 0. *)
Definition loop_body (fuel : nat) (program : Z) : M Z :=
  on <- switchOn ;;
  if on then
    match dispatch fuel program with
    | Some effect => effect ;; ret (int16 (program + 1))
    | None => ret 0
    end
  else
    d <- millisSinceLastOff ;;
    if 10000 <? d then
      t <- millis ;;
      debug (HIBERNATE t) ;;
      hibernate fuel ;;
      ret 0
    else ret program.

(** The first [passes] passes of [loop], from the counter [program]. *)
Fixpoint loop (passes fuel : nat) (program : Z) : M Z :=
  match passes with
  | O => ret program
  | S n => p <- loop_body fuel program ;; loop n fuel p
  end.

End Sketch.

(** * Vocabulary of the statements *)

(** The seven effects with their parameters, and the routine of each. *)
Inductive Effect : Type :=
| StaticColor (r g b : Z)
| SequentialFade (fadeAmount delayMillis : Z)
| SynchronizedFade (fadeAmount delayMillis : Z)
| SequentialFlash (delayMillis : Z)
| Blink (delayMillis : Z)
| RandomColorJump (delayMillis : Z)
| RandomColorWalk (delayMillis : Z).

Definition run_effect (e : Env) (fuel : nat) (x : Effect) : M unit :=
  match x with
  | StaticColor r g b => staticColorProgram e fuel r g b
  | SequentialFade f d => fadeLedProgram e fuel f d
  | SynchronizedFade f d => alt_fadeLedProgram e fuel f d
  | SequentialFlash d => runningColorsProgram e fuel d
  | Blink d => blinkLedProgram e fuel d
  | RandomColorJump d => colorBlasterProgram e fuel d
  | RandomColorWalk d => alt_colorBlasterProgram e fuel d
  end.

(** The intensity a channel is left at by a list of writes (newest
    first); a channel never written is at 0. *)
Definition channel (led : Z) (writes : list (Z * Z)) : Z :=
  match find (fun x => fst x =? led) writes with
  | Some x => snd x
  | None => 0
  end.

(** [n] calls of [switchOn()] in a row, with what they returned. *)
Fixpoint polls (e : Env) (n : nat) : M (list bool) :=
  match n with
  | O => ret []
  | S k => l <- polls e k ;; b <- switchOn e ;; ret (l ++ [b])
  end.

(** The result and the two timestamps of a run. *)
Definition stamps {A} (r : option (A * World)) : option (A * Z * Z) :=
  option_map (fun x => (fst x, lastOn (snd x), lastOff (snd x))) r.

(** The writes of a run that lie outside 0..255, newest first. *)
Definition stray {A} (r : option (A * World)) : option (list (Z * Z)) :=
  option_map
    (fun x => filter (fun wr => (snd wr <? 0) || (255 <? snd wr)) (out (snd x)))
    r.

(** The counter, the timestamp [lastOff], the writes and the log of a
    run of the program manager. *)
Definition report (r : option (Z * World))
    : option (Z * Z * list (Z * Z) * list DebugMsg) :=
  option_map (fun x => (fst x, lastOff (snd x), out (snd x), log (snd x))) r.


(** The effect list in the order of the rotation, with the number and
    the name under which the program manager announces each entry. *)
Definition rotation : list (Z * string * Effect) :=
  [ (1, "Static Color"%string, StaticColor 25 255 25);
    (2, "Fancy Fade"%string, SequentialFade 5 30);
    (3, "Alt Fancy Fade"%string, SynchronizedFade 5 30);
    (4, "Running Colors"%string, SequentialFlash 80);
    (5, "Maniac Disco"%string, Blink 350);
    (6, "Random Color"%string, RandomColorJump 500);
    (7, "Alt Random Color"%string, RandomColorWalk 250) ].

(** Both timestamps are untouched. *)
Definition same_stamps (w w' : World) : Prop :=
  lastOn w' = lastOn w /\ lastOff w' = lastOff w.

(** The writes of [w'] are those of [w] and later ones, none of them made
    before the instant of [w]. *)
Definition writes_since (w w' : World) : Prop :=
  (now w <= now w')%nat /\
  exists later times,
    out w' = later ++ out w /\ moments w' = times ++ moments w /\
    List.length times = List.length later /\
    Forall (fun t => (now w <= t)%nat) times.


(** The last three writes are those of [ledsOff]. *)
Definition ends_dark (w : World) : Prop :=
  exists rest, out w = (bLed, 0) :: (gLed, 0) :: (rLed, 0) :: rest.

Section Vocabulary.

Variable e : Env.

(** The world [n] instants later when the program writes nothing. *)
Definition after (n : nat) (w : World) : World := Nat.iter n (elapse e) w.

(** Only time has passed between [w] and [w']: every difference between
    the two worlds is the work of the clock and of the handler. *)
Definition time_passes (w w' : World) : Prop := exists n, w' = after n w.

(** The flag as the [i]-th test of the loop of [belay] reads it, and the
    elapsed time the [i]-th test of the clock computes, for a call in
    the world [w]. *)
Definition belay_flag (w : World) (i : nat) : bool :=
  remoteState (after (2 + 2 * i) w).

Definition belay_elapsed (w : World) (i : nat) : Z :=
  ulong (ulong (clock e (now w + 3 + 2 * i)) - ulong (clock e (now w + 1))).

(** The [i]-th pass ends the wait, started with the argument [period]. *)
Definition belay_exit (period : Z) (w : World) (i : nat) : bool :=
  negb (belay_flag w i) || (ulong period <=? belay_elapsed w i).

(** The world in which the wait ends at the [i]-th pass. *)
Definition belay_end (w : World) (i : nat) : World :=
  if belay_flag w i then after (3 + 2 * i) w else after (2 + 2 * i) w.

(** The loop of [belay], entered for its [i]-th pass. *)
Definition belay_loop (fuel : nat) (period : Z) (w : World) (i : nat)
    : option (unit * World) :=
  while_ fuel (read_remoteState e)
    (fun _ (_ : unit) =>
       t <- millis e ;;
       if ulong period <=? ulong (t - ulong (clock e (S (now w))))
       then ret (Break tt) else ret (Continue tt))
    tt (after (1 + 2 * i) w).

(** The world [switchOn()] has built when it reads the flag for its
    return value, for a call in the world [w]. *)
Definition switchOn_mid (w : World) : World :=
  let t1 := ulong (clock e (S (S (now w)))) in
  let t2 := ulong (clock e (S (S (S (now w))))) in
  let t3 := ulong (clock e (S (S (S (S (now w)))))) in
  if remoteState (elapse e w) then
    if ulong (t1 - lastOff w) <=? ulong (t2 - lastOn w)
    then set_log (HIGH t3 :: log w) (set_lastOn t3 (after 4 w))
    else after 3 w
  else
    if ulong (t1 - lastOn w) <? ulong (t2 - lastOff w)
    then set_log (LOW t3 :: log w) (set_lastOff t3 (after 4 w))
    else after 3 w.

(** The flag reads off at entry and during the next [n] instants. *)
Definition off_during (n : nat) (w : World) : Prop :=
  forall k, (k <= n)%nat -> remoteState (after k w) = false.

(** The intensity [random(1, 256)] yields at its [n]-th draw. *)
Definition intensity (n : nat) : Z :=
  int16 (1 + Z.rem (Z.abs (entropy e n)) (256 - 1)).

(** Two worlds that agree on what the flag will read from now on. *)
Definition agree (w w' : World) : Prop :=
  now w' = now w /\ remoteState w' = remoteState w.

(** [w'] is [w] some instants later as far as the flag is concerned. *)
Definition signal_passes (w w' : World) : Prop :=
  exists n, agree (after n w) w'.

(** From the instant [K] on the flag reads off. *)
Definition stays_off (K : nat) (w : World) : Prop :=
  forall n, (K <= now w + n)%nat -> remoteState (after n w) = false.

(** The computation returns in every world in which the flag stays off
    from the instant [K] on and [K] is at most [r] instants away. *)
Definition quiet (K r : nat) {A} (m : M A) : Prop :=
  forall w, stays_off K w -> (K - now w <= r)%nat ->
            exists a w', m w = Some (a, w').

(** The computation returns in every world. *)
Definition total {A} (m : M A) : Prop :=
  forall w, exists a w', m w = Some (a, w').

(** A loop condition that reads the flag and returns what it read. *)
Definition poll (cond : M bool) : Prop :=
  forall w, exists w', cond w = Some (remoteState w', w') /\
                       (now w < now w')%nat.

(** A loop body without [break]. *)
Definition no_break {S} (body : nat -> S -> M (flow S)) : Prop :=
  forall n s w r w', body n s w = Some (r, w') -> exists s', r = Continue s'.

End Vocabulary.

(** A relation between the world before and after a computation that
    holds for every run that returns. *)
Definition preserves {A} (R : World -> World -> Prop) (m : M A) : Prop :=
  forall w a w', m w = Some (a, w') -> R w w'.

(** ** Vocabulary of the further properties *)

(** Every run of the computation that returns relates the two worlds by
    [R] and returns a value in [Q]. *)
Definition yields {A} (R : World -> World -> Prop) (m : M A) (Q : A -> Prop)
    : Prop :=
  forall w a w', m w = Some (a, w') -> R w w' /\ Q a.

(** The writes of [w'] are those of [w] and later ones that all satisfy
    [P]. *)
Definition writes_only (P : Z * Z -> Prop) (w w' : World) : Prop :=
  exists later, out w' = later ++ out w /\ Forall P later.

(** No channel was written. *)
Definition same_out (w w' : World) : Prop := out w' = out w.

(** A write to one of the three channel pins. *)
Definition on_pins (wr : Z * Z) : Prop :=
  fst wr = rLed \/ fst wr = gLed \/ fst wr = bLed.

(** A write of an intensity between [lo] and [hi]. *)
Definition in_range (lo hi : Z) (wr : Z * Z) : Prop := lo <= snd wr <= hi.

(** All three channels are at 0. *)
Definition dark (w : World) : Prop :=
  channel rLed (out w) = 0 /\ channel gLed (out w) = 0 /\
  channel bLed (out w) = 0.

(** The highest intensity a ramp with step [f] reaches: 255 when [f]
    divides 255, else the first multiple of [f] beyond it is at most
    [254 + f]. *)
Definition top (f : Z) : Z := if 255 mod f =? 0 then 255 else 254 + f.

(** The number of steps a ramp with step [f] climbs. *)
Definition climb (f : Z) : Z := 254 / f + 1.

(** What the loop of [alt_fadeLedProgram] keeps true of
    [(brightness, fadeAmount)], for the parameter [f]. *)
Definition ramp_alt (f : Z) (s : Z * Z) : Prop :=
  (exists k, fst s = k * f) /\
  ((snd s = f /\ 0 <= fst s < 255) \/ (snd s = - f /\ 0 < fst s <= top f)).


(** * Concrete environments *)

(** The remote line goes high during instant [rise] and low during
    instant [fall]; the clock advances [step] milliseconds an instant. *)
Definition pulse (rise fall : nat) (step : Z) : Env :=
  mkEnv (fun k => if (k =? rise)%nat then Some true
                  else if (k =? fall)%nat then Some false else None)
        (fun k => step * Z.of_nat k)
        (fun n => 77 * Z.of_nat n).

(** The handler runs at the listed instants and samples the listed
    levels; the clock is given as a function of the instant. *)
Definition scripted (events : list (nat * bool)) (clk : nat -> Z) : Env :=
  mkEnv (fun k => option_map snd (find (fun ev => (fst ev =? k)%nat) events))
        clk
        (fun n => 77 * Z.of_nat n).

(** The line is high from instant 1 on, drops during instant [a] and is
    back during instant [b], to drop for good during instant [c]. *)
Definition glitch (a b c : nat) : Env :=
  scripted [(1%nat, true); (a, false); (b, true); (c, false)]
           (fun k => 10 * Z.of_nat k).

(** Calls of [switchOn()] at 200 ms, 300 ms, 400 ms and again within
    the millisecond 400, and a fifth call at [t5] ms. *)
Definition tie_clock (t5 : Z) (k : nat) : Z :=
  if (k <=? 5)%nat then 200
  else if (k <=? 9)%nat then 300
  else if (k <=? 19)%nat then 400
  else t5.

(** The line is high for the first two calls, low for the third and
    high again for the fourth; it stays high. *)
Definition tie_on : Env :=
  scripted [(1%nat, true); (10%nat, false); (15%nat, true)] (tie_clock 401).

(** The same, but the line drops before the fifth call at 450 ms. *)
Definition tie_off : Env :=
  scripted [(1%nat, true); (10%nat, false); (15%nat, true); (20%nat, false)]
           (tie_clock 450).

(** The clock wraps between the second and the third call of
    [switchOn()]. *)
Definition wrapping : Env :=
  scripted [(1%nat, true); (6%nat, false); (11%nat, true)]
           (fun k => if (k <=? 5)%nat then 4294967000
                     else if (k <=? 10)%nat then 4294967200
                     else 4294967396).

(** The line rises while the second call of [switchOn()] is between its
    test of the flag and its return. *)
Definition flipping : Env :=
  scripted [(1%nat, true); (6%nat, false); (8%nat, true)]
           (fun k => if (k <=? 5)%nat then 200 else 300).


(** * Reasoning about runs *)

(** ** Runs of monadic code *)

Lemma bind_Some {A B} (m : M A) (k : A -> M B) w b w' :
  bind m k w = Some (b, w') <->
  exists a w1, m w = Some (a, w1) /\ k a w1 = Some (b, w').
Proof.
  unfold bind. split.
  - destruct (m w) as [[a w1]|]; [eauto | discriminate].
  - intros (a & w1 & -> & H). exact H.
Qed.

Lemma bind_run {A B} (m : M A) (k : A -> M B) w a w1 :
  m w = Some (a, w1) -> bind m k w = k a w1.
Proof. unfold bind. now intros ->. Qed.

Lemma total_ret {A} (a : A) : total (ret a).
Proof. intros w. now exists a, w. Qed.

Lemma total_gets {A} (f : World -> A) : total (gets f).
Proof. intros w. now exists (f w), w. Qed.

Lemma total_modify f : total (modify f).
Proof. intros w. now exists tt, (f w). Qed.

Lemma total_bind {A B} (m : M A) (k : A -> M B) :
  total m -> (forall a, total (k a)) -> total (bind m k).
Proof.
  intros Hm Hk w. destruct (Hm w) as (a & w1 & H1).
  destruct (Hk a w1) as (b & w2 & H2).
  exists b, w2. now rewrite (bind_run _ _ _ _ _ H1).
Qed.

Lemma total_for {S} idx (body : Z -> S -> M S) :
  (forall i s, total (body i s)) -> forall s, total (for_ idx body s).
Proof.
  intros Hb. induction idx as [|i rest IH]; intros s; simpl.
  - apply total_ret.
  - apply total_bind; auto.
Qed.

Lemma preserves_apply {A} R (m : M A) w a w' :
  preserves R m -> m w = Some (a, w') -> R w w'.
Proof. intros H. apply H. Qed.

Section Preserves.

Variable R : World -> World -> Prop.
Hypothesis R_refl : forall w, R w w.
Hypothesis R_trans : forall w1 w2 w3, R w1 w2 -> R w2 w3 -> R w1 w3.

Lemma preserves_ret {A} (a : A) : preserves R (ret a).
Proof. intros w a' w' H. inversion H. apply R_refl. Qed.

Lemma preserves_gets {A} (f : World -> A) : preserves R (gets f).
Proof. intros w a' w' H. inversion H. apply R_refl. Qed.

Lemma preserves_fail {A} : preserves R (@fail A).
Proof. intros w a w' H. discriminate. Qed.

Lemma preserves_modify f : (forall w, R w (f w)) -> preserves R (modify f).
Proof. intros Hf w a w' H. inversion H. apply Hf. Qed.

Lemma preserves_bind {A B} (m : M A) (k : A -> M B) :
  preserves R m -> (forall a, preserves R (k a)) -> preserves R (bind m k).
Proof.
  intros Hm Hk w b w' H. apply bind_Some in H as (a & w1 & H1 & H2).
  eapply R_trans; [eapply Hm | eapply Hk]; eauto.
Qed.

Lemma preserves_while {S} fuel cond (body : nat -> S -> M (flow S)) :
  preserves R cond -> (forall n s, preserves R (body n s)) ->
  forall s, preserves R (while_ fuel cond body s).
Proof.
  intros Hc Hb. induction fuel as [|n IH]; intros s; simpl.
  - apply preserves_fail.
  - apply preserves_bind; [exact Hc|]. intros [|].
    + apply preserves_bind; [apply Hb|]. intros [s'|s'].
      * apply IH.
      * apply preserves_ret.
    + apply preserves_ret.
Qed.

Lemma preserves_for {S} idx (body : Z -> S -> M S) :
  (forall i s, preserves R (body i s)) ->
  forall s, preserves R (for_ idx body s).
Proof.
  intros Hb. induction idx as [|i rest IH]; intros s; simpl.
  - apply preserves_ret.
  - apply preserves_bind; [apply Hb | exact IH].
Qed.

End Preserves.

Create HintDb sketch.

#[local] Hint Unfold tick read_remoteState millis delay random1 random2 debug
  millisSinceLastOff millisSinceLastOn switchOn belay setLed ledsOff
  staticColorProgram fadeLedProgram alt_fadeLedProgram runningColorsProgram
  blinkLedProgram colorBlasterProgram alt_colorBlasterProgram hibernate
  : sketch.

(** Decompose a goal [preserves R m] along the structure of [m]; [refl],
    [trans] are the proofs that [R] is a preorder and [atom] closes the
    goals about single writes. *)
Ltac preserve_by refl trans atom :=
  autounfold with sketch;
  repeat first
    [ apply preserves_ret, refl
    | apply preserves_gets, refl
    | apply preserves_fail
    | apply preserves_bind; [apply trans | | intros ?]
    | apply preserves_while; [apply refl | apply trans | | intros ? ?]
    | apply preserves_for; [apply refl | apply trans | intros ? ?]
    | progress cbv zeta
    | match goal with
      | |- preserves _ (if ?c then _ else _) => destruct c
      | |- preserves _ (match ?x with _ => _ end) => destruct x
      end
    | atom ].

(** Straight-line code returns. *)
Ltac totality :=
  autounfold with sketch;
  repeat first
    [ apply total_ret | apply total_gets | apply total_modify
    | apply total_bind; [| intros ?]
    | apply total_for; intros ? ?
    | progress cbv zeta
    | match goal with
      | |- total (if ?c then _ else _) => destruct c
      | |- total (match ?x with _ => _ end) => destruct x
      end ].

Section Facts.

Variable e : Env.

(** ** The passage of time *)

Lemma now_elapse w : now (elapse e w) = S (now w).
Proof. unfold elapse. destruct (irq e (S (now w))); reflexivity. Qed.

Lemma lastOn_elapse w : lastOn (elapse e w) = lastOn w.
Proof. unfold elapse. destruct (irq e (S (now w))); reflexivity. Qed.

Lemma lastOff_elapse w : lastOff (elapse e w) = lastOff w.
Proof. unfold elapse. destruct (irq e (S (now w))); reflexivity. Qed.

Lemma out_elapse w : out (elapse e w) = out w.
Proof. unfold elapse. destruct (irq e (S (now w))); reflexivity. Qed.

Lemma moments_elapse w : moments (elapse e w) = moments w.
Proof. unfold elapse. destruct (irq e (S (now w))); reflexivity. Qed.

Lemma draws_elapse w : draws (elapse e w) = draws w.
Proof. unfold elapse. destruct (irq e (S (now w))); reflexivity. Qed.

Lemma log_elapse w : log (elapse e w) = log w.
Proof. unfold elapse. destruct (irq e (S (now w))); reflexivity. Qed.

Lemma after_S n w : after e (S n) w = elapse e (after e n w).
Proof. reflexivity. Qed.

Lemma after_elapse n w : after e n (elapse e w) = after e (S n) w.
Proof.
  unfold after. induction n as [|n IH]; [reflexivity|].
  simpl in *. now rewrite IH.
Qed.

Lemma after_add n m w : after e n (after e m w) = after e (n + m) w.
Proof. unfold after. now rewrite Nat.iter_add. Qed.

Lemma now_after n w : now (after e n w) = (now w + n)%nat.
Proof.
  induction n as [|n IH]; [simpl; lia|].
  rewrite after_S, now_elapse, IH. lia.
Qed.

Lemma lastOn_after n w : lastOn (after e n w) = lastOn w.
Proof.
  induction n as [|n IH]; [reflexivity|]. now rewrite after_S, lastOn_elapse.
Qed.

Lemma lastOff_after n w : lastOff (after e n w) = lastOff w.
Proof.
  induction n as [|n IH]; [reflexivity|]. now rewrite after_S, lastOff_elapse.
Qed.

Lemma out_after n w : out (after e n w) = out w.
Proof.
  induction n as [|n IH]; [reflexivity|]. now rewrite after_S, out_elapse.
Qed.

Lemma log_after n w : log (after e n w) = log w.
Proof.
  induction n as [|n IH]; [reflexivity|]. now rewrite after_S, log_elapse.
Qed.

Lemma moments_after n w : moments (after e n w) = moments w.
Proof.
  induction n as [|n IH]; [reflexivity|]. now rewrite after_S, moments_elapse.
Qed.

Lemma draws_after n w : draws (after e n w) = draws w.
Proof.
  induction n as [|n IH]; [reflexivity|]. now rewrite after_S, draws_elapse.
Qed.

Lemma time_passes_refl w : time_passes e w w.
Proof. now exists O. Qed.

Lemma time_passes_trans w1 w2 w3 :
  time_passes e w1 w2 -> time_passes e w2 w3 -> time_passes e w1 w3.
Proof.
  intros [n ->] [m ->]. exists (m + n)%nat. apply after_add.
Qed.

Lemma time_passes_elapse w : time_passes e w (elapse e w).
Proof. now exists 1%nat. Qed.

(** ** Single steps *)

Lemma run_read_remoteState w :
  read_remoteState e w = Some (remoteState (elapse e w), elapse e w).
Proof. reflexivity. Qed.

Lemma run_millis w :
  millis e w = Some (ulong (clock e (S (now w))), elapse e w).
Proof.
  unfold millis, tick, bind, modify, gets. now rewrite now_elapse.
Qed.

Lemma run_delay ms w : delay e ms w = Some (tt, elapse e w).
Proof. reflexivity. Qed.

Lemma preserves_read_remoteState :
  preserves (time_passes e) (read_remoteState e).
Proof.
  intros w a w' H. rewrite run_read_remoteState in H. inversion H.
  apply time_passes_elapse.
Qed.

Lemma preserves_millis : preserves (time_passes e) (millis e).
Proof.
  intros w a w' H. rewrite run_millis in H. inversion H.
  apply time_passes_elapse.
Qed.

(** ** The interruptible wait *)

(** The wait only lets time pass. *)
Lemma preserves_belay fuel period :
  preserves (time_passes e) (belay e fuel period).
Proof.
  unfold belay.
  apply preserves_bind; [apply time_passes_trans | apply preserves_millis |].
  intros start.
  apply preserves_while;
    [apply time_passes_refl | apply time_passes_trans
    | apply preserves_read_remoteState |].
  intros n s.
  apply preserves_bind; [apply time_passes_trans | apply preserves_millis |].
  intros t. destruct (ulong period <=? ulong (t - start));
    apply preserves_ret, time_passes_refl.
Qed.

Lemma belay_unfold fuel period w :
  belay e fuel period w = belay_loop e fuel period w 0.
Proof.
  unfold belay, belay_loop. now rewrite (bind_run _ _ _ _ _ (run_millis w)).
Qed.

Lemma belay_loop_S n period w i :
  belay_loop e (S n) period w i =
  if belay_exit e period w i then Some (tt, belay_end e w i)
  else belay_loop e n period w (S i).
Proof.
  unfold belay_loop at 1. cbn [while_].
  rewrite (bind_run _ _ _ _ _ (run_read_remoteState _)).
  change (elapse e (after e (1 + 2 * i) w)) with (after e (2 + 2 * i) w).
  unfold belay_exit, belay_end, belay_flag.
  destruct (remoteState (after e (2 + 2 * i) w)) eqn:Hflag; cbn [negb orb].
  - unfold bind. rewrite run_millis.
    change (elapse e (after e (2 + 2 * i) w)) with (after e (3 + 2 * i) w).
    unfold belay_elapsed.
    replace (S (now (after e (2 + 2 * i) w))) with (now w + 3 + 2 * i)%nat
      by (rewrite now_after; lia).
    replace (now w + 1)%nat with (S (now w)) by lia.
    destruct (ulong period <=? _); [reflexivity|].
    unfold belay_loop, ret, bind.
    replace (1 + 2 * S i)%nat with (3 + 2 * i)%nat by lia. reflexivity.
  - reflexivity.
Qed.

(** The wait ends at the first pass that meets the exit condition. *)
Lemma belay_loop_runs period w j :
  forall fuel i,
    (forall k, (i <= k < i + j)%nat -> belay_exit e period w k = false) ->
    belay_exit e period w (i + j) = true ->
    (j < fuel)%nat ->
    belay_loop e fuel period w i = Some (tt, belay_end e w (i + j)).
Proof.
  induction j as [|j IH]; intros fuel i Hbefore Hexit Hfuel;
    (destruct fuel as [|n]; [lia|]); rewrite belay_loop_S.
  - rewrite Nat.add_0_r in *. now rewrite Hexit.
  - rewrite Hbefore by lia.
    replace (i + S j)%nat with (S i + j)%nat in * by lia.
    apply IH; [intros k Hk; apply Hbefore; lia | assumption | lia].
Qed.

(** Until then it is still waiting. *)
Lemma belay_loop_blocked period w :
  forall fuel i,
    (forall k, (i <= k < i + fuel)%nat -> belay_exit e period w k = false) ->
    belay_loop e fuel period w i = None.
Proof.
  induction fuel as [|n IH]; intros i Hbefore; [reflexivity|].
  rewrite belay_loop_S, Hbefore by lia.
  apply IH. intros k Hk. apply Hbefore. lia.
Qed.

(** Every return of the wait is such an exit. *)
Lemma belay_loop_inv period w :
  forall fuel i w',
    belay_loop e fuel period w i = Some (tt, w') ->
    exists j, (j < fuel)%nat /\
      (forall k, (i <= k < i + j)%nat -> belay_exit e period w k = false) /\
      belay_exit e period w (i + j) = true /\
      w' = belay_end e w (i + j).
Proof.
  induction fuel as [|n IH]; intros i w' H; [discriminate|].
  rewrite belay_loop_S in H.
  destruct (belay_exit e period w i) eqn:Hexit.
  - exists O. rewrite Nat.add_0_r. inversion H.
    repeat split; [lia | intros; lia | assumption].
  - apply IH in H as (j & Hj & Hbefore & Hex & ->).
    exists (S j). replace (i + S j)%nat with (S i + j)%nat by lia.
    repeat split; [lia | | assumption].
    intros k Hk. destruct (Nat.eq_dec k i) as [->|]; [assumption|].
    apply Hbefore. lia.
Qed.

(** ** The flag from now on *)

Lemma agree_refl w : agree w w.
Proof. now split. Qed.

Lemma agree_trans w1 w2 w3 : agree w1 w2 -> agree w2 w3 -> agree w1 w3.
Proof. intros [H1 H2] [H3 H4]. split; congruence. Qed.

Lemma agree_elapse w w' : agree w w' -> agree (elapse e w) (elapse e w').
Proof.
  intros [Hn Hr]. unfold agree, elapse. rewrite Hn.
  destruct (irq e (S (now w))); simpl; auto.
Qed.

Lemma agree_after n w w' : agree w w' -> agree (after e n w) (after e n w').
Proof.
  intros H. induction n as [|n IH]; [exact H|].
  rewrite !after_S. now apply agree_elapse.
Qed.

Lemma signal_passes_refl w : signal_passes e w w.
Proof. exists O. apply agree_refl. Qed.

Lemma signal_passes_trans w1 w2 w3 :
  signal_passes e w1 w2 -> signal_passes e w2 w3 -> signal_passes e w1 w3.
Proof.
  intros [n H1] [m H2]. exists (m + n)%nat. rewrite <- after_add.
  eapply agree_trans; [apply agree_after, H1 | exact H2].
Qed.

Lemma signal_passes_elapse w : signal_passes e w (elapse e w).
Proof. exists 1%nat. apply agree_refl. Qed.

Lemma signal_passes_agree w w' : agree w w' -> signal_passes e w w'.
Proof. intros H. now exists O. Qed.

Lemma signal_passes_later w w' :
  signal_passes e w w' -> (now w <= now w')%nat.
Proof. intros [n [Hn _]]. rewrite Hn, now_after. lia. Qed.

Lemma stays_off_passes K w w' :
  stays_off e K w -> signal_passes e w w' -> stays_off e K w'.
Proof.
  intros Hoff [n Hag] m Hm.
  destruct (agree_after m _ _ Hag) as [Hn Hr]. rewrite Hr, after_add.
  apply Hoff. destruct Hag as [Hn' _]. rewrite now_after in Hn'. lia.
Qed.

Lemma signal_passes_modify (f : World -> World) :
  (forall w, agree w (f w)) -> preserves (signal_passes e) (modify f).
Proof.
  intros Hf. apply preserves_modify. intros w. apply signal_passes_agree, Hf.
Qed.

Lemma remoteState_elapse w :
  remoteState (elapse e w) =
  match irq e (S (now w)) with Some level => level | None => remoteState w end.
Proof. unfold elapse. destruct (irq e (S (now w))); reflexivity. Qed.

(** The flag stays off once it is off and the handler no longer samples
    a high level. *)
Lemma stays_off_intro K w :
  (now w <= K)%nat ->
  remoteState (after e (K - now w) w) = false ->
  (forall k, (K < k)%nat -> irq e k <> Some true) ->
  stays_off e K w.
Proof.
  intros Hle Hbase Hirq n Hn.
  replace n with ((n - (K - now w)) + (K - now w))%nat by lia.
  generalize (n - (K - now w))%nat as m. intros m.
  induction m as [|m IH]; [exact Hbase|].
  cbn [Nat.add]. rewrite after_S, remoteState_elapse, now_after.
  specialize (Hirq (S (now w + (m + (K - now w))))).
  destruct (irq e (S (now w + (m + (K - now w))))) as [[|]|];
    [exfalso; apply Hirq; [lia | reflexivity] | reflexivity | exact IH].
Qed.

Lemma stays_off_now K w :
  stays_off e K w -> (K <= now w)%nat -> remoteState w = false.
Proof. intros H Hk. apply (H O). lia. Qed.

Ltac passes :=
  preserve_by signal_passes_refl signal_passes_trans
    ltac:(first [ apply signal_passes_modify; intros ?; split; reflexivity
                | apply preserves_modify, signal_passes_elapse ]).

Lemma passes_switchOn : preserves (signal_passes e) (switchOn e).
Proof. passes. Qed.

Lemma passes_belay fuel period :
  preserves (signal_passes e) (belay e fuel period).
Proof. passes. Qed.

Lemma poll_read_remoteState : poll (read_remoteState e).
Proof.
  intros w. exists (elapse e w). split; [reflexivity|].
  rewrite now_elapse. lia.
Qed.

Lemma total_switchOn : total (switchOn e).
Proof. totality. Qed.

Lemma poll_switchOn : poll (switchOn e).
Proof.
  intros w. destruct (total_switchOn w) as (b & w' & H).
  exists w'. pose proof H as H0. unfold switchOn in H0.
  apply bind_Some in H0 as (rs & w1 & Hrs & H0).
  apply bind_Some in H0 as (u & w2 & Hmid & H0).
  assert (Hp1 : signal_passes e w w1)
    by (eapply preserves_apply; [| exact Hrs]; passes).
  assert (Hp2 : signal_passes e w1 w2)
    by (eapply preserves_apply; [| exact Hmid]; passes).
  rewrite run_read_remoteState in H0. inversion H0; subst b w'.
  split; [exact H|].
  apply signal_passes_later in Hp1, Hp2. rewrite now_elapse. lia.
Qed.

(** [switchOn()], run symbolically. *)
Lemma switchOn_run w :
  switchOn e w =
  Some (remoteState (elapse e (switchOn_mid e w)), elapse e (switchOn_mid e w)).
Proof.
  unfold switchOn, switchOn_mid, millisSinceLastOff, millisSinceLastOn.
  rewrite (bind_run _ _ _ _ _ (run_read_remoteState w)).
  destruct (remoteState (elapse e w)); unfold bind;
    rewrite !run_millis; cbn [gets ret];
    rewrite !run_millis; cbn [gets ret];
    rewrite !now_elapse, ?lastOn_elapse, ?lastOff_elapse;
    match goal with |- context [if ?c then _ else _] => destruct c end;
    rewrite ?run_millis;
    cbn [gets ret modify debug lastOn lastOff log set_lastOn set_lastOff];
    rewrite ?now_elapse, ?log_elapse; reflexivity.
Qed.

Lemma agree_switchOn_mid w :
  exists n, (3 <= n <= 4)%nat /\ agree (after e n w) (switchOn_mid e w).
Proof.
  unfold switchOn_mid.
  destruct (remoteState (elapse e w));
    match goal with |- context [if ?c then _ else _] => destruct c end;
    first [ exists 4%nat; split; [lia | now split]
          | exists 3%nat; split; [lia | now split] ].
Qed.

Lemma out_switchOn_mid w : out (switchOn_mid e w) = out w.
Proof.
  unfold switchOn_mid.
  destruct (remoteState (elapse e w));
    match goal with |- context [if ?c then _ else _] => destruct c end;
    cbn [out set_log set_lastOn set_lastOff]; apply out_after.
Qed.

Lemma draws_switchOn_mid w : draws (switchOn_mid e w) = draws w.
Proof.
  unfold switchOn_mid.
  destruct (remoteState (elapse e w));
    match goal with |- context [if ?c then _ else _] => destruct c end;
    cbn [draws set_log set_lastOn set_lastOff]; apply draws_after.
Qed.

Lemma moments_switchOn_mid w : moments (switchOn_mid e w) = moments w.
Proof.
  unfold switchOn_mid.
  destruct (remoteState (elapse e w));
    match goal with |- context [if ?c then _ else _] => destruct c end;
    cbn [moments set_log set_lastOn set_lastOff]; apply moments_after.
Qed.

(** A call of [switchOn()] writes no channel and takes four or five
    instants: two reads of the flag, two of the clock, and a third read
    of the clock when it records an edge. *)
Lemma switchOn_writes_nothing w c w' :
  switchOn e w = Some (c, w') ->
  out w' = out w /\ moments w' = moments w /\
  (now w + 4 <= now w' <= now w + 5)%nat.
Proof.
  rewrite switchOn_run. intros H. injection H as _ <-.
  rewrite out_elapse, moments_elapse, now_elapse, out_switchOn_mid,
    moments_switchOn_mid.
  destruct (agree_switchOn_mid w) as (n & Hn & Hnow & _).
  rewrite Hnow, now_after. repeat split; lia.
Qed.

(** A call of [switchOn()] during which the flag reads off. *)
Lemma switchOn_off w0 w :
  agree w0 w -> off_during e 5 w0 ->
  exists w', switchOn e w = Some (false, w') /\ out w' = out w /\
             draws w' = draws w.
Proof.
  intros Hag Hoff. rewrite switchOn_run.
  destruct (agree_switchOn_mid w) as (n & Hn & Hmid).
  assert (Hflag : remoteState (elapse e (switchOn_mid e w)) = false).
  { destruct (agree_elapse _ _ Hmid) as [_ ->]. rewrite <- after_S.
    destruct (agree_after (S n) _ _ Hag) as [_ ->]. apply Hoff. lia. }
  rewrite Hflag. eexists. split; [reflexivity|].
  now rewrite out_elapse, draws_elapse, out_switchOn_mid, draws_switchOn_mid.
Qed.

(** ** Returning once the flag stays off *)

Lemma quiet_ret K r {A} (a : A) : quiet e K r (ret a).
Proof. intros w _ _. now exists a, w. Qed.

Lemma quiet_gets K r {A} (f : World -> A) : quiet e K r (gets f).
Proof. intros w _ _. now exists (f w), w. Qed.

Lemma quiet_modify K r f : quiet e K r (modify f).
Proof. intros w _ _. now exists tt, (f w). Qed.

Lemma quiet_mono K r r' {A} (m : M A) :
  (r' <= r)%nat -> quiet e K r m -> quiet e K r' m.
Proof. intros Hr Hm w Hoff Hk. apply Hm; [assumption | lia]. Qed.

Lemma quiet_bind K r {A B} (m : M A) (k : A -> M B) :
  preserves (signal_passes e) m ->
  quiet e K r m -> (forall a, quiet e K r (k a)) -> quiet e K r (bind m k).
Proof.
  intros Hp Hm Hk w Hoff Hr.
  destruct (Hm w Hoff Hr) as (a & w1 & H1).
  pose proof (Hp _ _ _ H1) as Hpass.
  destruct (Hk a w1) as (b & w2 & H2).
  - eapply stays_off_passes; eauto.
  - apply signal_passes_later in Hpass. lia.
  - exists b, w2. now rewrite (bind_run _ _ _ _ _ H1).
Qed.

Lemma quiet_for K r {S} idx (body : Z -> S -> M S) :
  (forall i s, preserves (signal_passes e) (body i s)) ->
  (forall i s, quiet e K r (body i s)) ->
  forall s, quiet e K r (for_ idx body s).
Proof.
  intros Hp Hb. induction idx as [|i rest IH]; intros s; simpl.
  - apply quiet_ret.
  - apply quiet_bind; auto.
Qed.

(** A loop whose condition polls the flag returns when the flag stays
    off: every pass uses up an instant, and the body (with the loops it
    contains, which need [d] units of fuel beyond the instants left)
    returns. *)
Lemma quiet_while K d {S} cond (body : nat -> S -> M (flow S)) :
  poll cond ->
  preserves (signal_passes e) cond ->
  (forall n s, preserves (signal_passes e) (body n s)) ->
  (forall n r s, (r + d <= n)%nat -> quiet e K r (body n s)) ->
  forall fuel r s, (r + d < fuel)%nat -> quiet e K r (while_ fuel cond body s).
Proof.
  intros Hpoll Hcond Hpres Hbody.
  induction fuel as [|n IH]; intros r s Hfuel w Hoff Hr; [lia|].
  cbn [while_].
  destruct (Hpoll w) as (w1 & Hc & Hlt).
  rewrite (bind_run _ _ _ _ _ Hc).
  pose proof (stays_off_passes _ _ _ Hoff (Hcond _ _ _ Hc)) as Hoff1.
  destruct (remoteState w1) eqn:Hflag; [|now exists s, w1].
  assert (Hk : (now w1 < K)%nat).
  { destruct (Nat.lt_ge_cases (now w1) K) as [|Hge]; [assumption|].
    rewrite (stays_off_now _ _ Hoff1 Hge) in Hflag. discriminate. }
  destruct (Hbody n (r - 1)%nat s ltac:(lia) w1 Hoff1 ltac:(lia))
    as (x & w2 & Hb).
  rewrite (bind_run _ _ _ _ _ Hb).
  pose proof (Hpres _ _ _ _ _ Hb) as Hpass.
  destruct x as [s'|s']; [|now exists s', w2].
  apply (IH (r - 1)%nat s' ltac:(lia)).
  - eapply stays_off_passes; eauto.
  - apply signal_passes_later in Hpass. lia.
Qed.

Lemma quiet_of_total K r {A} (m : M A) : total m -> quiet e K r m.
Proof. intros H w _ _. apply H. Qed.

Lemma quiet_belay K r fuel period :
  (r < fuel)%nat -> quiet e K r (belay e fuel period).
Proof.
  intros Hfuel. unfold belay.
  apply quiet_bind; [passes | apply quiet_of_total; totality |].
  intros start. apply (quiet_while K 0);
    [apply poll_read_remoteState | passes | intros; passes | | lia].
  intros n r' s _. apply quiet_of_total. totality.
Qed.

Ltac quietly :=
  repeat first
    [ solve [apply quiet_of_total; totality]
    | apply quiet_belay; lia
    | apply quiet_bind; [solve [passes] | | intros ?]
    | apply quiet_for; [intros ? ?; solve [passes] | intros ? ?]
    | progress cbv zeta
    | match goal with
      | |- quiet _ _ _ (if ?c then _ else _) => destruct c
      | |- quiet _ _ _ (match ?x with _ => _ end) => destruct x
      end ].

(** Every loop over [switchOn()] whose body returns. *)
Ltac quiet_loop d :=
  apply (quiet_while _ d);
    [ apply poll_switchOn | apply passes_switchOn | intros ? ?; passes
    | intros ? ? ? ? | lia ].

Lemma quiet_staticColorProgram K r fuel cr cg cb :
  (r < fuel)%nat -> quiet e K r (staticColorProgram e fuel cr cg cb).
Proof.
  intros Hfuel. unfold staticColorProgram. quietly.
  quiet_loop 0%nat. quietly.
Qed.

Lemma quiet_fadeLedProgram K r fuel fadeAmount delayMillis :
  (r + 2 < fuel)%nat ->
  quiet e K r (fadeLedProgram e fuel fadeAmount delayMillis).
Proof.
  intros Hfuel. unfold fadeLedProgram. quietly.
  quiet_loop 2%nat. quietly;
    (apply (quiet_while K 1);
       [ apply poll_read_remoteState | passes | intros; passes
       | intros; quietly | lia ]).
Qed.

Lemma quiet_alt_fadeLedProgram K r fuel fadeAmount delayMillis :
  (r + 1 < fuel)%nat ->
  quiet e K r (alt_fadeLedProgram e fuel fadeAmount delayMillis).
Proof.
  intros Hfuel. unfold alt_fadeLedProgram. quietly.
  quiet_loop 1%nat. quietly.
Qed.

Lemma quiet_runningColorsProgram K r fuel delayMillis :
  (r + 1 < fuel)%nat ->
  quiet e K r (runningColorsProgram e fuel delayMillis).
Proof.
  intros Hfuel. unfold runningColorsProgram. quietly.
  quiet_loop 1%nat. quietly.
Qed.

Lemma quiet_blinkLedProgram K r fuel delayMillis :
  (r + 1 < fuel)%nat -> quiet e K r (blinkLedProgram e fuel delayMillis).
Proof.
  intros Hfuel. unfold blinkLedProgram. quietly.
  quiet_loop 1%nat. quietly.
Qed.

Lemma quiet_colorBlasterProgram K r fuel delayMillis :
  (r + 1 < fuel)%nat -> quiet e K r (colorBlasterProgram e fuel delayMillis).
Proof.
  intros Hfuel. unfold colorBlasterProgram. quietly.
  quiet_loop 1%nat. quietly.
Qed.

Lemma quiet_alt_colorBlasterProgram K r fuel delayMillis :
  (r + 1 < fuel)%nat ->
  quiet e K r (alt_colorBlasterProgram e fuel delayMillis).
Proof.
  intros Hfuel. unfold alt_colorBlasterProgram. quietly.
  quiet_loop 1%nat. quietly.
Qed.

(** A loop without [break] ends on a failing test of its condition. *)
Lemma while_exit {S} cond (body : nat -> S -> M (flow S)) :
  no_break body ->
  forall fuel s w s' w',
    while_ fuel cond body s w = Some (s', w') ->
    exists w0, cond w0 = Some (false, w').
Proof.
  intros Hnb. induction fuel as [|n IH]; intros s w s' w' H; [discriminate|].
  cbn [while_] in H. apply bind_Some in H as (c & w1 & Hc & H).
  destruct c.
  - apply bind_Some in H as (x & w2 & Hb & H).
    destruct (Hnb _ _ _ _ _ Hb) as [s2 ->]. eapply IH, H.
  - inversion H; subst. now exists w.
Qed.

(** ** The exit path of the effects *)

Ltac unbind H := repeat (apply bind_Some in H as (? & ? & ? & H)).

Lemma run_setLed led v w :
  setLed led v w = Some (tt, analogWrite led v w).
Proof. reflexivity. Qed.

Lemma run_ledsOff w :
  ledsOff w =
  Some (tt, analogWrite bLed 0 (analogWrite gLed 0 (analogWrite rLed 0 w))).
Proof. reflexivity. Qed.

(** The loop of an effect has ended on [switchOn()] returning false, and
    [ledsOff] is the last thing the effect does. *)
Lemma effect_exit {S} fuel (body : nat -> S -> M (flow S)) s w w' :
  no_break body ->
  (while_ fuel (switchOn e) body s ;; ledsOff) w = Some (tt, w') ->
  ends_dark w' /\ remoteState w' = false.
Proof.
  intros Hnb H. apply bind_Some in H as (s' & w1 & Hloop & H).
  rewrite run_ledsOff in H. inversion H; subst w'.
  split; [now eexists|]. cbn.
  apply (while_exit _ _ Hnb) in Hloop as (w0 & Hc).
  destruct (poll_switchOn w0) as (w2 & Hc' & _).
  congruence.
Qed.

Ltac no_break_tac :=
  let H := fresh "H" in
  intros ? ? ? ? ? H; cbv zeta in H; unbind H; inversion H; eauto.

Lemma run_effect_exit x fuel w w' :
  run_effect e fuel x w = Some (tt, w') ->
  ends_dark w' /\ remoteState w' = false.
Proof.
  destruct x; cbn [run_effect]; intros H.
  - unfold staticColorProgram in H.
    do 3 apply bind_Some in H as (? & ? & _ & H).
    eapply effect_exit; [|exact H]. no_break_tac.
  - eapply effect_exit; [|exact H]. no_break_tac.
  - eapply effect_exit; [|exact H]. no_break_tac.
  - eapply effect_exit; [|exact H]. no_break_tac.
  - eapply effect_exit; [|exact H]. no_break_tac.
  - eapply effect_exit; [|exact H]. no_break_tac.
  - unfold alt_colorBlasterProgram in H.
    do 6 apply bind_Some in H as (? & ? & _ & H).
    eapply effect_exit; [|exact H]. no_break_tac.
Qed.

Lemma ends_dark_channels w :
  ends_dark w ->
  channel rLed (out w) = 0 /\ channel gLed (out w) = 0 /\
  channel bLed (out w) = 0.
Proof. intros [rest ->]. now repeat split. Qed.

Lemma quiet_run_effect K r x fuel :
  (r + 2 < fuel)%nat -> quiet e K r (run_effect e fuel x).
Proof.
  intros Hfuel. destruct x; cbn [run_effect].
  - apply quiet_staticColorProgram. lia.
  - apply quiet_fadeLedProgram. lia.
  - apply quiet_alt_fadeLedProgram. lia.
  - apply quiet_runningColorsProgram. lia.
  - apply quiet_blinkLedProgram. lia.
  - apply quiet_colorBlasterProgram. lia.
  - apply quiet_alt_colorBlasterProgram. lia.
Qed.

(** ** The first frame of an effect *)

Lemma run_random2_intensity w :
  random2 e 1 256 w =
  Some (1 + Z.rem (Z.abs (entropy e (draws w))) (256 - 1),
        set_draws (S (draws w)) w).
Proof. reflexivity. Qed.

(** ** The instants of the writes *)

Lemma since_refl w : writes_since w w.
Proof. split; [lia|]. now exists [], []. Qed.

Lemma since_trans w1 w2 w3 :
  writes_since w1 w2 -> writes_since w2 w3 -> writes_since w1 w3.
Proof.
  intros (Hn1 & l1 & t1 & Ho1 & Hm1 & Hl1 & Ht1)
         (Hn2 & l2 & t2 & Ho2 & Hm2 & Hl2 & Ht2).
  split; [lia|]. exists (l2 ++ l1), (t2 ++ t1).
  rewrite Ho2, Ho1, Hm2, Hm1, !app_assoc, !length_app.
  repeat split; [lia|]. apply Forall_app. split; [|exact Ht1].
  eapply Forall_impl; [|exact Ht2]. cbv beta. lia.
Qed.

Lemma since_elapse w : writes_since w (elapse e w).
Proof.
  split; [rewrite now_elapse; lia|]. exists [], [].
  now rewrite out_elapse, moments_elapse.
Qed.

Lemma since_write led v w : writes_since w (analogWrite led v w).
Proof.
  split; [apply Nat.le_refl|]. exists [(led, v)], [now w].
  repeat split. constructor; [apply Nat.le_refl | constructor].
Qed.

Lemma since_same w w' :
  now w' = now w -> out w' = out w -> moments w' = moments w ->
  writes_since w w'.
Proof.
  intros Hn Ho Hm. split; [lia|]. exists [], []. now rewrite Ho, Hm.
Qed.

Ltac timing :=
  preserve_by since_refl since_trans
    ltac:(apply preserves_modify; intros ?;
          first [ apply since_elapse | apply since_write
                | apply since_same; reflexivity ]).

(** The loop of an effect begins with a call of [switchOn()]: whatever
    is written from there on is written at least four instants after
    the loop was entered. *)
Lemma effect_loop_writes_later {S} fuel (body : nat -> S -> M (flow S)) s w w' :
  (forall n s, preserves writes_since (body n s)) ->
  (while_ fuel (switchOn e) body s ;; ledsOff) w = Some (tt, w') ->
  exists later times,
    out w' = later ++ out w /\ moments w' = times ++ moments w /\
    List.length times = List.length later /\
    Forall (fun t => (now w + 4 <= t)%nat) times.
Proof.
  intros Hb H. destruct fuel as [|n]; [discriminate|].
  apply bind_Some in H as (s' & w2 & H & Hoff).
  cbn [while_] in H.
  apply bind_Some in H as (c & w1 & Hsw & H).
  destruct (switchOn_writes_nothing _ _ _ Hsw) as (Ho & Hm & Hn).
  assert (writes_since w1 w') as (_ & later & times & Hl & Ht & Hlen & Hall).
  { eapply since_trans.
    - eapply (preserves_apply writes_since); [| exact H].
      destruct c; timing; apply Hb.
    - eapply (preserves_apply writes_since); [| exact Hoff]. timing. }
  exists later, times. rewrite <- Ho, <- Hm. repeat split; auto.
  eapply Forall_impl; [|exact Hall]. cbv beta. lia.
Qed.

Lemma staticColorProgram_first fuel r g b w w' :
  staticColorProgram e fuel r g b w = Some (tt, w') ->
  exists later times,
    out w' = later ++ (bLed, b) :: (gLed, g) :: (rLed, r) :: out w /\
    moments w' = times ++ now w :: now w :: now w :: moments w /\
    List.length times = List.length later /\
    Forall (fun t => (now w + 4 <= t)%nat) times.
Proof.
  unfold staticColorProgram. intros H.
  do 3 (rewrite (bind_run _ _ _ _ _ (run_setLed _ _ _)) in H).
  apply effect_loop_writes_later in H; [exact H|]. intros. timing.
Qed.

Lemma alt_colorBlasterProgram_first fuel d w w' :
  alt_colorBlasterProgram e fuel d w = Some (tt, w') ->
  exists later times,
    out w' = later ++ (bLed, intensity e (2 + draws w))
                   :: (gLed, intensity e (1 + draws w))
                   :: (rLed, intensity e (draws w)) :: out w /\
    moments w' = times ++ now w :: now w :: now w :: moments w /\
    List.length times = List.length later /\
    Forall (fun t => (now w + 4 <= t)%nat) times.
Proof.
  unfold alt_colorBlasterProgram. intros H.
  do 3 (rewrite (bind_run _ _ _ _ _ (run_random2_intensity _)) in H;
        rewrite (bind_run _ _ _ _ _ (run_setLed _ _ _)) in H).
  apply effect_loop_writes_later in H; [exact H|]. intros. timing.
Qed.

(** With the flag off at entry the routine makes one call of
    [switchOn()] and then writes the three zeros. *)
Lemma staticColorProgram_off_at fuel r g b w :
  off_during e 5 w ->
  exists w',
    staticColorProgram e (S fuel) r g b w = Some (tt, w') /\
    out w' = (bLed, 0) :: (gLed, 0) :: (rLed, 0)
             :: (bLed, b) :: (gLed, g) :: (rLed, r) :: out w /\
    moments w' = now w' :: now w' :: now w'
                 :: now w :: now w :: now w :: moments w /\
    (now w + 4 <= now w' <= now w + 5)%nat.
Proof.
  intros Hoff. unfold staticColorProgram.
  do 3 (rewrite (bind_run _ _ _ _ _ (run_setLed _ _ _))).
  cbn [while_]. unfold bind.
  edestruct (switchOn_off w) as (w1 & Hsw & _); [| exact Hoff |].
  2: { rewrite Hsw. unfold ret. rewrite run_ledsOff.
       destruct (switchOn_writes_nothing _ _ _ Hsw) as (Ho & Hm & Hn).
       eexists. split; [reflexivity|].
       cbn [out moments now set_out analogWrite set_moments] in *.
       now rewrite Ho, Hm. }
  now split.
Qed.

Lemma alt_colorBlasterProgram_off_at fuel d w :
  off_during e 5 w ->
  exists w',
    alt_colorBlasterProgram e (S fuel) d w = Some (tt, w') /\
    out w' = (bLed, 0) :: (gLed, 0) :: (rLed, 0)
             :: (bLed, intensity e (2 + draws w))
             :: (gLed, intensity e (1 + draws w))
             :: (rLed, intensity e (draws w)) :: out w /\
    moments w' = now w' :: now w' :: now w'
                 :: now w :: now w :: now w :: moments w /\
    (now w + 4 <= now w' <= now w + 5)%nat.
Proof.
  intros Hoff. unfold alt_colorBlasterProgram.
  cbn [while_].
  edestruct (switchOn_off w) as (w1 & Hsw & _);
    [| exact Hoff |].
  2: { do 3 (rewrite (bind_run _ _ _ _ _ (run_random2_intensity _));
             rewrite (bind_run _ _ _ _ _ (run_setLed _ _ _))).
       unfold bind. rewrite Hsw. unfold ret. rewrite run_ledsOff.
       destruct (switchOn_writes_nothing _ _ _ Hsw) as (Ho & Hm & Hn).
       eexists. split; [reflexivity|].
       cbn [out moments now set_out analogWrite set_moments set_draws draws]
         in *.
       now rewrite Ho, Hm. }
  now split.
Qed.

(** ** What is logged *)









(** ** Who writes the timestamps *)

Lemma same_stamps_refl w : same_stamps w w.
Proof. now split. Qed.

Lemma same_stamps_trans w1 w2 w3 :
  same_stamps w1 w2 -> same_stamps w2 w3 -> same_stamps w1 w3.
Proof. intros [H1 H2] [H3 H4]. split; congruence. Qed.

Ltac stamping :=
  preserve_by same_stamps_refl same_stamps_trans
    ltac:(apply preserves_modify; intros ?;
          split; first [apply lastOn_elapse | apply lastOff_elapse
                       | reflexivity]).

Lemma stamps_belay fuel period : preserves same_stamps (belay e fuel period).
Proof. stamping. Qed.

Lemma stamps_setLed led v : preserves same_stamps (setLed led v).
Proof. stamping. Qed.

Lemma stamps_ledsOff : preserves same_stamps ledsOff.
Proof. stamping. Qed.

Lemma stamps_delay ms : preserves same_stamps (delay e ms).
Proof. stamping. Qed.

Lemma stamps_millis : preserves same_stamps (millis e).
Proof. stamping. Qed.

Lemma stamps_random2 lo hi : preserves same_stamps (random2 e lo hi).
Proof. stamping. Qed.

Lemma stamps_random1 hi : preserves same_stamps (random1 e hi).
Proof. stamping. Qed.

Lemma stamps_hibernate fuel : preserves same_stamps (hibernate e fuel).
Proof. stamping. Qed.

(** ** Small facts used by the main statements *)

Lemma ulong_small z : 0 <= z < 4294967296 -> ulong z = z.
Proof. apply Z.mod_small. Qed.

Lemma int16_small z : -32768 <= z < 32768 -> int16 z = z.
Proof. intros H. unfold int16. rewrite Z.mod_small; lia. Qed.

Lemma intensity_range n : 1 <= intensity e n <= 255.
Proof.
  unfold intensity.
  pose proof (Z.rem_bound_pos (Z.abs (entropy e n)) (256 - 1)
                (Z.abs_nonneg _) ltac:(lia)).
  rewrite int16_small; lia.
Qed.

(** The least index at which a test succeeds. *)
Lemma first_true (f : nat -> bool) j :
  f j = true ->
  exists j0, (j0 <= j)%nat /\ f j0 = true /\
             forall i, (i < j0)%nat -> f i = false.
Proof.
  induction j as [j IH] using (well_founded_induction lt_wf). intros Hj.
  destruct (existsb f (seq 0 j)) eqn:Hex.
  - apply existsb_exists in Hex as (i & Hin & Hi).
    apply in_seq in Hin.
    destruct (IH i ltac:(lia) Hi) as (j0 & Hle & Hj0 & Hmin).
    exists j0. repeat split; [lia | assumption | assumption].
  - exists j. repeat split; [lia | assumption |].
    intros i Hi. destruct (f i) eqn:Hfi; [|reflexivity].
    assert (existsb f (seq 0 j) = true); [|congruence].
    apply existsb_exists. exists i. split; [apply in_seq; lia | assumption].
Qed.

End Facts.

(** ** The switch of the program manager *)

Lemma dispatch_default e fuel p :
  p < 0 \/ 7 <= p -> dispatch e fuel p = None.
Proof.
  intros H. destruct p as [|p|p]; [lia | | reflexivity].
  do 3 (destruct p as [p|p|]; try lia; try reflexivity).
Qed.

Lemma dispatch_rotation e fuel i n name x :
  nth_error rotation i = Some (n, name, x) ->
  dispatch e fuel (Z.of_nat i) = Some (debug (PROG n name) ;; run_effect e fuel x).
Proof.
  do 7 (destruct i as [|i]; [cbn; intros [= <- <- <-]; reflexivity|]).
  destruct i; discriminate.
Qed.

Lemma dispatch_Some e fuel p effect :
  dispatch e fuel p = Some effect ->
  0 <= p <= 6 /\
  exists n name x, effect = (debug (PROG n name) ;; run_effect e fuel x).
Proof.
  intros H.
  destruct (Z.lt_ge_cases p 0);
    [rewrite dispatch_default in H by lia; discriminate|].
  destruct (Z.le_gt_cases 7 p);
    [rewrite dispatch_default in H by lia; discriminate|].
  split; [lia|].
  assert (Hc : p = 0 \/ p = 1 \/ p = 2 \/ p = 3 \/ p = 4 \/ p = 5 \/ p = 6)
    by lia.
  destruct Hc as [-> | [-> | [-> | [-> | [-> | [-> | ->]]]]]];
    cbn [dispatch] in H; injection H as <-.
  - now exists 1, "Static Color"%string, (StaticColor 25 255 25).
  - now exists 2, "Fancy Fade"%string, (SequentialFade 5 30).
  - now exists 3, "Alt Fancy Fade"%string, (SynchronizedFade 5 30).
  - now exists 4, "Running Colors"%string, (SequentialFlash 80).
  - now exists 5, "Maniac Disco"%string, (Blink 350).
  - now exists 6, "Random Color"%string, (RandomColorJump 500).
  - now exists 7, "Alt Random Color"%string, (RandomColorWalk 250).
Qed.

Lemma run_millisSinceLastOff e w :
  millisSinceLastOff e w =
  Some (ulong (ulong (clock e (S (now w))) - lastOff w), elapse e w).
Proof.
  unfold millisSinceLastOff, bind. rewrite run_millis. cbn [gets ret].
  now rewrite lastOff_elapse.
Qed.

(** A pass that finds the flag off compares the time since [lastOff]
    with 10000 ms: up to the threshold the pass changes nothing but the
    instant, beyond it the pass logs HIBERNATE, waits for the flag and
    leaves the counter at 0. *)
Lemma pass_while_off e fuel p w w1 :
  switchOn e w = Some (false, w1) ->
  (ulong (ulong (clock e (S (now w1))) - lastOff w1) <= 10000 ->
   loop_body e fuel p w = Some (p, elapse e w1)) /\
  (10000 < ulong (ulong (clock e (S (now w1))) - lastOff w1) ->
   forall w2,
     hibernate e fuel
       (set_log (HIBERNATE (ulong (clock e (S (S (now w1))))) :: log w1)
          (after e 2 w1)) = Some (tt, w2) ->
     loop_body e fuel p w = Some (0, w2)).
Proof.
  intros Hoff. unfold loop_body.
  rewrite (bind_run _ _ _ _ _ Hoff).
  rewrite (bind_run _ _ _ _ _ (run_millisSinceLastOff e w1)).
  split; intros Hd.
  - apply Z.ltb_ge in Hd. now rewrite Hd.
  - apply Z.ltb_lt in Hd. rewrite Hd. intros w2 Hh.
    unfold bind, debug, modify. rewrite run_millis, !now_elapse, !log_elapse.
    change (elapse e (elapse e w1)) with (after e 2 w1).
    now rewrite Hh.
Qed.

(** * The claims *)

(** C1.  With [fadeAmount = 2] and the line held high, the ramp of
    [fadeLedProgram] steps from 254 to 256 and hands 256 to the channel
    output before it turns round; [alt_fadeLedProgram] does the same on
    all three channels.  These are the only writes of the two runs
    outside 0..255. *)
Theorem fade_writes_256 :
  stray (fadeLedProgram (pulse 1 1500 10) 1600 2 30 boot)
  = Some [(rLed, 256)] /\
  stray (alt_fadeLedProgram (pulse 1 1500 10) 1600 2 30 boot)
  = Some [(bLed, 256); (gLed, 256); (rLed, 256)].
Proof. split; vm_compute; reflexivity. Qed.

(** With the default [fadeAmount = 5] the ramp stays in range as long as
    the line is steady, but a drop of the line on the way down followed
    at once by a rise starts the next channel with a negative step: the
    green channel is written -5. *)
Remark fade_writes_negative_after_glitch :
  stray (fadeLedProgram (pulse 1 1500 10) 1600 5 30 boot) = Some [] /\
  stray (fadeLedProgram (glitch 402 403 900) 1000 5 30 boot)
  = Some [(gLed, -5)].
Proof. split; vm_compute; reflexivity. Qed.

(** C2.  Each of the seven effect routines, whatever its parameters,
    returns only after [switchOn()] has returned false, and its last
    three writes are those of [ledsOff]: all three channels are left at
    exactly 0.  And it does return: when the flag stays off from some
    instant on, enough fuel yields a result. *)
Theorem effects_leave_leds_off e x :
  (forall fuel w w',
      run_effect e fuel x w = Some (tt, w') ->
      ends_dark w' /\
      channel rLed (out w') = 0 /\ channel gLed (out w') = 0 /\
      channel bLed (out w') = 0 /\
      remoteState w' = false) /\
  (forall K w fuel,
      stays_off e K w -> (K - now w + 2 < fuel)%nat ->
      exists w', run_effect e fuel x w = Some (tt, w')).
Proof.
  split.
  - intros fuel w w' H. apply run_effect_exit in H as [Hd Hr].
    destruct (ends_dark_channels _ Hd) as (H1 & H2 & H3). auto.
  - intros K w fuel Hoff Hfuel.
    destruct (quiet_run_effect e K (K - now w) x fuel Hfuel w Hoff
                (Nat.le_refl _)) as ([] & w' & H).
    now exists w'.
Qed.

Lemma effects_leave_leds_off_witness :
  exists w',
    run_effect (pulse 1 40 10) 60 (SequentialFade 5 30) boot = Some (tt, w') /\
    ends_dark w' /\ remoteState w' = false.
Proof.
  destruct (proj2 (effects_leave_leds_off (pulse 1 40 10) (SequentialFade 5 30))
              40%nat boot 60%nat) as [w' H].
  - apply stays_off_intro; [cbn; lia | vm_compute; reflexivity |].
    intros k Hk. unfold pulse. cbn [irq].
    destruct (Nat.eqb_spec k 1); [lia|].
    destruct (Nat.eqb_spec k 40); [lia | discriminate].
  - cbn [now boot]. lia.
  - exists w'. split; [exact H|].
    destruct (proj1 (effects_leave_leds_off (pulse 1 40 10)
                       (SequentialFade 5 30)) _ _ _ H) as (Hd & _ & _ & _ & Hr).
    now split.
Defined.

(** C3.  Five calls of [switchOn()] from the boot state.  The third
    call records the drop of the line at 400 ms and the fourth, within
    the same millisecond, the rise.  The line then stays high, and yet
    the fifth call, at 401 ms, writes [lastOn] again.  If instead the
    line drops before the fifth call, that call (at 450 ms) returns
    false and leaves [lastOff] at 400. *)
Theorem tie_breaks_edge_tracking :
  stamps (polls tie_on 4 boot) = Some ([true; true; false; true], 400, 400) /\
  stamps (polls tie_on 5 boot)
  = Some ([true; true; false; true; true], 401, 400) /\
  (forall k, (15 < k)%nat -> irq tie_on k = None) /\
  stamps (polls tie_off 5 boot)
  = Some ([true; true; false; true; false], 400, 400).
Proof.
  repeat split; try (vm_compute; reflexivity).
  intros k Hk. unfold tie_on, scripted. cbn [irq find fst snd].
  destruct (Nat.eqb_spec 1 k); [lia|].
  destruct (Nat.eqb_spec 10 k); [lia|].
  destruct (Nat.eqb_spec 15 k); [lia | reflexivity].
Qed.

(** C4, as stated, fails.  A pulse of the line that Static Color
    answers when the counter is 0 is spent on the reset when the counter
    is 7: the pass that finds the counter at 7 sets it to 0 and ends,
    the next pass polls the line again and finds it low, and no effect
    has run (the log holds no PROG message, no channel was written). *)
Lemma wrap_spends_a_short_pulse :
  report (loop (pulse 1 6 10) 3 10 0 boot)
  = Some (1, 90,
          [(bLed, 0); (gLed, 0); (rLed, 0); (bLed, 25); (gLed, 255); (rLed, 25)],
          [LOW 90; PROG 1 "Static Color"; HIGH 40]) /\
  report (loop_body (pulse 1 6 10) 10 7 boot) = Some (0, 0, [], [HIGH 40]) /\
  report (loop (pulse 1 6 10) 3 10 7 boot)
  = Some (0, 90, [], [LOW 90; HIGH 40]).
Proof. repeat split; vm_compute; reflexivity. Qed.

(** C4, amended.  In a pass whose call of [switchOn()] returns true:
    with the counter at [i < 7] the [i]-th entry of the seven-entry
    effect list runs and the counter becomes [i + 1]; with the counter
    outside 0..6 nothing runs, the counter becomes 0 and the pass ends,
    so that the next pass polls [switchOn()] again, and when that poll
    returns true too, Static Color runs in this second pass and leaves
    the counter at 1. *)
Theorem rotation_advances_and_wraps e fuel w w1 :
  switchOn e w = Some (true, w1) ->
  List.length rotation = 7%nat /\
  (forall i n name x w2,
      nth_error rotation i = Some (n, name, x) ->
      (debug (PROG n name) ;; run_effect e fuel x) w1 = Some (tt, w2) ->
      loop_body e fuel (Z.of_nat i) w = Some (Z.of_nat i + 1, w2)) /\
  (forall p, p < 0 \/ 7 <= p -> loop_body e fuel p w = Some (0, w1)) /\
  (forall p w2 w3,
      p < 0 \/ 7 <= p ->
      switchOn e w1 = Some (true, w2) ->
      (debug (PROG 1 "Static Color") ;; staticColorProgram e fuel 25 255 25) w2
      = Some (tt, w3) ->
      loop e 2 fuel p w = Some (1, w3)).
Proof.
  intros Hon.
  assert (Hstep : forall i n name x w2,
             nth_error rotation i = Some (n, name, x) ->
             (debug (PROG n name) ;; run_effect e fuel x) w1 = Some (tt, w2) ->
             loop_body e fuel (Z.of_nat i) w = Some (Z.of_nat i + 1, w2)).
  { intros i n name x w2 Hi Hrun. unfold loop_body.
    rewrite (bind_run _ _ _ _ _ Hon), (dispatch_rotation _ _ _ _ _ _ Hi).
    rewrite (bind_run _ _ _ _ _ Hrun). unfold ret.
    assert (Hlt : (i < List.length rotation)%nat)
      by (apply nth_error_Some; rewrite Hi; discriminate).
    cbn [List.length rotation] in Hlt.
    rewrite int16_small by lia. reflexivity. }
  assert (Hwrap : forall p, p < 0 \/ 7 <= p ->
                            loop_body e fuel p w = Some (0, w1)).
  { intros p Hp. unfold loop_body.
    now rewrite (bind_run _ _ _ _ _ Hon), (dispatch_default _ _ _ Hp). }
  split; [reflexivity|]. split; [exact Hstep|]. split; [exact Hwrap|].
  intros p w2 w3 Hp Hon2 Hrun. cbn [loop].
  rewrite (bind_run _ _ _ _ _ (Hwrap p Hp)).
  assert (Hfirst : loop_body e fuel 0 w1 = Some (1, w3)).
  { unfold loop_body. rewrite (bind_run _ _ _ _ _ Hon2). cbn [dispatch].
    now rewrite (bind_run _ _ _ _ _ Hrun). }
  now rewrite (bind_run _ _ _ _ _ Hfirst).
Qed.

(** The line is high for both polls: the counter goes from 7 over 0 to
    1 within two passes, Static Color having run. *)
Lemma rotation_advances_and_wraps_witness :
  exists w3, loop (pulse 1 30 10) 2 20 7 boot = Some (1, w3).
Proof.
  eexists.
  refine (proj2 (proj2 (proj2
            (rotation_advances_and_wraps (pulse 1 30 10) 20 boot _ _)))
            7 _ _ _ _ _).
  - vm_compute. reflexivity.
  - lia.
  - vm_compute. reflexivity.
  - vm_compute. reflexivity.
Defined.




(** C6.  For a duration [d >= 0] (a [long]), in an environment in which
    some test of the loop sees the flag off or the elapsed time at [d]
    or more, [belay(d)] returns, and it returns at the first such test:
    at every earlier test the flag was on and less than [d] had elapsed,
    and at the return either the flag reads off or at least [d]
    milliseconds have elapsed since the call. *)
Theorem belay_contract e d w :
  0 <= d < 2147483648 ->
  (exists j, belay_exit e d w j = true) ->
  exists j w',
    (forall fuel, (j < fuel)%nat -> belay e fuel d w = Some (tt, w')) /\
    (forall fuel, (fuel <= j)%nat -> belay e fuel d w = None) /\
    (forall i, (i < j)%nat ->
               belay_flag e w i = true /\ belay_elapsed e w i < d) /\
    w' = belay_end e w j /\
    (remoteState w' = false \/
     (belay_flag e w j = true /\ d <= belay_elapsed e w j)).
Proof.
  intros Hd [j Hj].
  destruct (first_true (belay_exit e d w) j Hj) as (j0 & _ & Hexit & Hmin).
  exists j0, (belay_end e w j0).
  assert (Hu : ulong d = d) by (apply ulong_small; lia).
  repeat split.
  - intros fuel Hfuel. rewrite belay_unfold.
    apply (belay_loop_runs e d w j0 fuel 0); auto.
    intros k Hk. apply Hmin. lia.
  - intros fuel Hfuel. rewrite belay_unfold.
    apply belay_loop_blocked. intros k Hk. apply Hmin. lia.
  - pose proof (Hmin i H) as Hi. unfold belay_exit in Hi.
    apply orb_false_elim in Hi as [Hi _]. now apply negb_false_iff in Hi.
  - pose proof (Hmin i H) as Hi. unfold belay_exit in Hi.
    apply orb_false_elim in Hi as [_ Hi]. rewrite Hu in Hi.
    now apply Z.leb_gt in Hi.
  - unfold belay_exit in Hexit. unfold belay_end.
    destruct (belay_flag e w j0) eqn:Hflag.
    + right. cbn in Hexit. rewrite Hu in Hexit.
      split; [reflexivity | now apply Z.leb_le].
    + left. exact Hflag.
Qed.

Lemma belay_contract_witness :
  exists j w',
    (forall fuel, (j < fuel)%nat ->
                  belay (pulse 1 40 10) fuel 30 boot = Some (tt, w')) /\
    (forall fuel, (fuel <= j)%nat ->
                  belay (pulse 1 40 10) fuel 30 boot = None) /\
    (forall i, (i < j)%nat ->
               belay_flag (pulse 1 40 10) boot i = true /\
               belay_elapsed (pulse 1 40 10) boot i < 30) /\
    w' = belay_end (pulse 1 40 10) boot j /\
    (remoteState w' = false \/
     (belay_flag (pulse 1 40 10) boot j = true /\
      30 <= belay_elapsed (pulse 1 40 10) boot j)).
Proof.
  apply (belay_contract (pulse 1 40 10) 30 boot).
  - lia.
  - exists 1%nat. reflexivity.
Defined.

(** C7.  A call of [belay] is read-only with respect to the signal
    monitor, for every argument: between the world at the call and the
    world at the return only time has passed, so the flag [remoteState]
    holds what the interrupt handler left in it, and the timestamps
    [lastOn] and [lastOff] (and the channel outputs) are those of the
    call. *)
Theorem belay_read_only e fuel period w w' :
  belay e fuel period w = Some (tt, w') ->
  time_passes e w w' /\
  lastOn w' = lastOn w /\ lastOff w' = lastOff w /\ out w' = out w.
Proof.
  intros H. apply preserves_belay in H. split; [exact H|].
  destruct H as [n ->].
  now rewrite lastOn_after, lastOff_after, out_after.
Qed.

Lemma belay_read_only_witness :
  belay (pulse 1 40 10) 10 30 boot = Some (tt, after (pulse 1 40 10) 5 boot) /\
  time_passes (pulse 1 40 10) boot (after (pulse 1 40 10) 5 boot).
Proof.
  split; [reflexivity|].
  apply (belay_read_only (pulse 1 40 10) 10 30 boot). reflexivity.
Defined.

(** C8, as stated, fails.  When the clock has wrapped between the
    recorded drop and the next rise, [switchOn()] returns true with
    [lastOn] at 100 and [lastOff] at 4294967200; when the handler raises
    the flag between the test of a call and its return, the call records
    a drop and returns true, with [lastOn] at 200 and [lastOff] at 300. *)
Lemma switchOn_true_with_older_lastOn :
  stamps (polls wrapping 3 boot) = Some ([true; false; true], 100, 4294967200)
  /\ stamps (polls flipping 2 boot) = Some ([true; true], 200, 300).
Proof. split; vm_compute; reflexivity. Qed.

(** C8, amended.  Take a call of [switchOn()] whose return value is the
    flag it tested, at a time when the clock has not wrapped: its three
    readings during the call do not decrease, stay below 2^32 and are
    not earlier than the two timestamps.  If the call returns true then
    [lastOn >= lastOff], if it returns false then [lastOff >= lastOn];
    and again no timestamp is later than the clock.  No other operation
    (the wait, the delay, the channel writes, the clock, the generator,
    hibernation) writes a timestamp. *)
Theorem switchOn_orders_stamps e w :
  (forall b w',
      0 <= lastOn w <= clock e (S (S (now w))) ->
      0 <= lastOff w <= clock e (S (S (now w))) ->
      clock e (S (S (now w))) <= clock e (S (S (S (now w)))) ->
      clock e (S (S (S (now w)))) <= clock e (S (S (S (S (now w))))) ->
      clock e (S (S (S (S (now w))))) < 4294967296 ->
      switchOn e w = Some (b, w') ->
      b = remoteState (elapse e w) ->
      (if b then lastOff w' <= lastOn w' else lastOn w' <= lastOff w') /\
      0 <= lastOn w' <= clock e (S (S (S (S (now w))))) /\
      0 <= lastOff w' <= clock e (S (S (S (S (now w)))))) /\
  (forall fuel period, preserves same_stamps (belay e fuel period)) /\
  (forall ms, preserves same_stamps (delay e ms)) /\
  (forall led v, preserves same_stamps (setLed led v)) /\
  preserves same_stamps ledsOff /\
  preserves same_stamps (millis e) /\
  (forall lo hi, preserves same_stamps (random2 e lo hi)) /\
  (forall hi, preserves same_stamps (random1 e hi)) /\
  (forall fuel, preserves same_stamps (hibernate e fuel)).
Proof.
  split;
    [| auto 10 using stamps_belay, stamps_delay, stamps_setLed, stamps_ledsOff,
         stamps_millis, stamps_random2, stamps_random1, stamps_hibernate].
  intros b w' Hon Hoff H12 H23 H3 Hrun Hb.
  subst b. rewrite switchOn_run in Hrun. injection Hrun as _ Hw'. subst w'.
  rewrite lastOn_elapse, lastOff_elapse.
  set (t1 := clock e (S (S (now w)))) in *.
  set (t2 := clock e (S (S (S (now w))))) in *.
  set (t3 := clock e (S (S (S (S (now w)))))) in *.
  unfold switchOn_mid. fold t1 t2 t3.
  rewrite !(ulong_small t1), !(ulong_small t2), !(ulong_small t3) by lia.
  rewrite !ulong_small by lia.
  destruct (remoteState (elapse e w)).
  - destruct (Z.leb_spec (t1 - lastOff w) (t2 - lastOn w));
      cbn [lastOn lastOff set_log set_lastOn];
      rewrite ?lastOn_after, ?lastOff_after; lia.
  - destruct (Z.ltb_spec (t1 - lastOn w) (t2 - lastOff w));
      cbn [lastOn lastOff set_log set_lastOff];
      rewrite ?lastOn_after, ?lastOff_after; lia.
Qed.

Lemma switchOn_orders_stamps_witness :
  exists w',
    switchOn tie_off (after tie_off 9 (set_lastOn 200 boot)) = Some (false, w') /\
    lastOn w' <= lastOff w'.
Proof.
  eexists. split; [vm_compute; reflexivity|].
  refine (proj1 (proj1 (switchOn_orders_stamps tie_off
                          (after tie_off 9 (set_lastOn 200 boot)))
                   false _ _ _ _ _ _ _ _)); vm_compute;
    try reflexivity; try (split; discriminate); discriminate.
Defined.

(** C9.  [staticColorProgram] and [alt_colorBlasterProgram] write their
    first frame (the given triple, respectively three random
    intensities in 1..255) before the first check of the signal: the
    three writes are made at the instant at which the routine is
    entered, while every read of the flag lets an instant elapse first,
    and every later write is made at least four instants after entry,
    when the first call of [switchOn()] has returned.  When the flag
    reads off at entry and during the first call of [switchOn()], the
    routine returns with exactly that frame followed by the three zero
    writes of [ledsOff], which are made at the instant of the return,
    four or five instants after entry. *)
Theorem first_frame_precedes_first_test e (r g b d : Z) w :
  (forall fuel w',
      staticColorProgram e fuel r g b w = Some (tt, w') ->
      exists later times,
        out w' = later ++ (bLed, b) :: (gLed, g) :: (rLed, r) :: out w /\
        moments w' = times ++ now w :: now w :: now w :: moments w /\
        List.length times = List.length later /\
        Forall (fun t => (now w + 4 <= t)%nat) times) /\
  (forall fuel w',
      alt_colorBlasterProgram e fuel d w = Some (tt, w') ->
      exists later times,
        out w' = later ++ (bLed, intensity e (2 + draws w))
                       :: (gLed, intensity e (1 + draws w))
                       :: (rLed, intensity e (draws w)) :: out w /\
        moments w' = times ++ now w :: now w :: now w :: moments w /\
        List.length times = List.length later /\
        Forall (fun t => (now w + 4 <= t)%nat) times) /\
  (1 <= intensity e (draws w) <= 255 /\
   1 <= intensity e (1 + draws w) <= 255 /\
   1 <= intensity e (2 + draws w) <= 255) /\
  (off_during e 5 w ->
   forall fuel, exists w1 w2,
     staticColorProgram e (S fuel) r g b w = Some (tt, w1) /\
     out w1 = (bLed, 0) :: (gLed, 0) :: (rLed, 0)
              :: (bLed, b) :: (gLed, g) :: (rLed, r) :: out w /\
     moments w1 = now w1 :: now w1 :: now w1
                  :: now w :: now w :: now w :: moments w /\
     (now w + 4 <= now w1 <= now w + 5)%nat /\
     alt_colorBlasterProgram e (S fuel) d w = Some (tt, w2) /\
     out w2 = (bLed, 0) :: (gLed, 0) :: (rLed, 0)
              :: (bLed, intensity e (2 + draws w))
              :: (gLed, intensity e (1 + draws w))
              :: (rLed, intensity e (draws w)) :: out w /\
     moments w2 = now w2 :: now w2 :: now w2
                  :: now w :: now w :: now w :: moments w /\
     (now w + 4 <= now w2 <= now w + 5)%nat).
Proof.
  split; [intros fuel w'; apply staticColorProgram_first|].
  split; [intros fuel w'; apply alt_colorBlasterProgram_first|].
  split; [auto using intensity_range|].
  intros Hoff fuel.
  destruct (staticColorProgram_off_at e fuel r g b w Hoff)
    as (w1 & H1 & Ho1 & Hm1 & Hn1).
  destruct (alt_colorBlasterProgram_off_at e fuel d w Hoff)
    as (w2 & H2 & Ho2 & Hm2 & Hn2).
  exists w1, w2. repeat split; solve [assumption | apply Hn1 | apply Hn2].
Qed.

Lemma first_frame_precedes_first_test_witness :
  exists w1 w2,
    staticColorProgram (pulse 7 8 10) 1 25 255 25 boot = Some (tt, w1) /\
    out w1 = [(bLed, 0); (gLed, 0); (rLed, 0);
              (bLed, 25); (gLed, 255); (rLed, 25)] /\
    moments w1 = [now w1; now w1; now w1; 0; 0; 0]%nat /\
    (0 + 4 <= now w1 <= 0 + 5)%nat /\
    alt_colorBlasterProgram (pulse 7 8 10) 1 250 boot = Some (tt, w2) /\
    out w2 = [(bLed, 0); (gLed, 0); (rLed, 0);
              (bLed, 155); (gLed, 78); (rLed, 1)] /\
    moments w2 = [now w2; now w2; now w2; 0; 0; 0]%nat /\
    (0 + 4 <= now w2 <= 0 + 5)%nat.
Proof.
  apply (proj2 (proj2 (proj2
           (first_frame_precedes_first_test (pulse 7 8 10) 25 255 25 250 boot)))).
  intros k Hk.
  do 6 (destruct k as [|k]; [vm_compute; reflexivity|]). lia.
Defined.

(** C10.  For a negative argument [p] (a [long]) the cast
    [(unsigned long)p] is [p mod 2^32 = p + 2^32], at least [2^31]: a
    test that sees the flag on with less than [2^31] milliseconds
    elapsed never ends the wait; every return of [belay(p)] comes at a
    test that reads the flag off or measures [p + 2^32] milliseconds or
    more, all earlier tests having left it waiting; and the call returns
    once a test reads the flag off. *)
Theorem belay_negative_period e p w :
  -2147483648 <= p < 0 ->
  ulong p = p + 4294967296 /\
  2147483648 <= ulong p /\
  (forall i, belay_flag e w i = true -> belay_elapsed e w i < 2147483648 ->
             belay_exit e p w i = false) /\
  (forall fuel w',
      belay e fuel p w = Some (tt, w') ->
      exists j, w' = belay_end e w j /\
        (forall i, (i < j)%nat -> belay_exit e p w i = false) /\
        (remoteState w' = false \/
         p + 4294967296 <= belay_elapsed e w j)) /\
  (forall j, belay_flag e w j = false ->
             exists w', forall fuel, (j < fuel)%nat ->
                                     belay e fuel p w = Some (tt, w')).
Proof.
  intros Hp.
  assert (Hu : ulong p = p + 4294967296).
  { unfold ulong. symmetry. apply (Z.mod_unique_pos _ _ (-1)); lia. }
  split; [exact Hu|]. split; [lia|]. repeat split.
  - intros i Hflag Hel. unfold belay_exit. rewrite Hflag. cbn.
    apply Z.leb_gt. lia.
  - intros fuel w' H. rewrite belay_unfold in H.
    apply belay_loop_inv in H as (j & _ & Hbefore & Hexit & ->).
    cbn [Nat.add] in *. exists j. split; [reflexivity|].
    split; [intros i Hi; apply Hbefore; lia|].
    unfold belay_exit in Hexit. unfold belay_end.
    destruct (belay_flag e w j) eqn:Hflag.
    + right. cbn in Hexit. rewrite Hu in Hexit. now apply Z.leb_le.
    + left. exact Hflag.
  - intros j Hflag.
    assert (Hj : belay_exit e p w j = true)
      by (unfold belay_exit; now rewrite Hflag).
    destruct (first_true _ j Hj) as (j0 & Hle & Hexit & Hmin).
    exists (belay_end e w j0). intros fuel Hfuel. rewrite belay_unfold.
    apply (belay_loop_runs e p w j0 fuel 0); [| assumption | lia].
    intros k Hk. apply Hmin. lia.
Qed.

(** With [p = -30] and the clock advancing 10 ms an instant the wait
    outlasts 30 ms by far: it ends when the flag falls, 390 ms after the
    call. *)
Lemma belay_negative_period_witness :
  ulong (-30) = 4294967266 /\
  belay (pulse 1 40 10) 20 (-30) boot = Some (tt, after (pulse 1 40 10) 40 boot) /\
  belay_exit (pulse 1 40 10) (-30) boot 1 = false.
Proof.
  split; [reflexivity|]. split; [vm_compute; reflexivity|].
  apply (belay_negative_period (pulse 1 40 10) (-30) boot);
    [lia | vm_compute; reflexivity | vm_compute; reflexivity].
Defined.

(** * Further properties *)

(** ** Runs that return values *)

Section Yields.

Variable R : World -> World -> Prop.
Hypothesis R_refl : forall w, R w w.
Hypothesis R_trans : forall w1 w2 w3, R w1 w2 -> R w2 w3 -> R w1 w3.

Lemma yields_ret {A} (a : A) (Q : A -> Prop) : Q a -> yields R (ret a) Q.
Proof. intros Ha w a' w' H. inversion H; subst. auto. Qed.

Lemma yields_preserves {A} (m : M A) :
  preserves R m -> yields R m (fun _ => True).
Proof. intros Hm w a w' H. split; [eapply Hm, H | exact I]. Qed.

Lemma yields_weaken {A} (m : M A) (Q Q' : A -> Prop) :
  yields R m Q -> (forall a, Q a -> Q' a) -> yields R m Q'.
Proof. intros Hm HQ w a w' H. destruct (Hm _ _ _ H). auto. Qed.

Lemma yields_bind {A B} (m : M A) (k : A -> M B) (Q1 : A -> Prop)
    (Q2 : B -> Prop) :
  yields R m Q1 -> (forall a, Q1 a -> yields R (k a) Q2) ->
  yields R (bind m k) Q2.
Proof.
  intros Hm Hk w b w' H. apply bind_Some in H as (a & w1 & H1 & H2).
  destruct (Hm _ _ _ H1) as [HR1 HQ1].
  destruct (Hk a HQ1 _ _ _ H2) as [HR2 HQ2]. eauto.
Qed.

Lemma yields_while {S} (Inv : S -> Prop) cond
    (body : nat -> S -> M (flow S)) :
  preserves R cond ->
  (forall n s, Inv s ->
     yields R (body n s)
       (fun r => match r with Continue s' | Break s' => Inv s' end)) ->
  forall fuel s, Inv s -> yields R (while_ fuel cond body s) Inv.
Proof.
  intros Hc Hb. induction fuel as [|n IH]; intros s Hs; [discriminate|].
  cbn [while_].
  apply yields_bind with (Q1 := fun _ => True);
    [now apply yields_preserves|].
  intros [|] _; [|now apply yields_ret].
  eapply yields_bind; [apply Hb, Hs|].
  intros [s'|s'] Hs'; [now apply IH | now apply yields_ret].
Qed.


End Yields.

Section Writes.

Variable e : Env.

(** ** Code that writes no channel *)

Lemma same_out_refl w : same_out w w.
Proof. reflexivity. Qed.

Lemma same_out_trans w1 w2 w3 :
  same_out w1 w2 -> same_out w2 w3 -> same_out w1 w3.
Proof. unfold same_out. congruence. Qed.

Ltac unwritten :=
  preserve_by same_out_refl same_out_trans
    ltac:(apply preserves_modify; intros ?; unfold same_out;
          first [apply out_elapse | reflexivity]).

Lemma out_switchOn : preserves same_out (switchOn e).
Proof. unwritten. Qed.

Lemma out_belay fuel period : preserves same_out (belay e fuel period).
Proof. unwritten. Qed.

Lemma out_delay ms : preserves same_out (delay e ms).
Proof. unwritten. Qed.

Lemma out_read_remoteState : preserves same_out (read_remoteState e).
Proof. unwritten. Qed.

Lemma out_millis : preserves same_out (millis e).
Proof. unwritten. Qed.

Lemma out_millisSinceLastOff : preserves same_out (millisSinceLastOff e).
Proof. unwritten. Qed.

Lemma out_debug m : preserves same_out (debug m).
Proof. unwritten. Qed.

Lemma out_hibernate fuel : preserves same_out (hibernate e fuel).
Proof. unwritten. Qed.

Lemma out_random2 lo hi : preserves same_out (random2 e lo hi).
Proof. unwritten. Qed.

Lemma out_random1 hi : preserves same_out (random1 e hi).
Proof. unwritten. Qed.

(** ** Code that writes channels *)

Section WritesOnly.

Variable P : Z * Z -> Prop.

Lemma writes_only_refl w : writes_only P w w.
Proof. exists []. now split. Qed.

Lemma writes_only_trans w1 w2 w3 :
  writes_only P w1 w2 -> writes_only P w2 w3 -> writes_only P w1 w3.
Proof.
  intros (l1 & H1 & F1) (l2 & H2 & F2). exists (l2 ++ l1). split.
  - now rewrite H2, H1, app_assoc.
  - apply Forall_app. now split.
Qed.

Lemma writes_unwritten {A} (m : M A) :
  preserves same_out m -> yields (writes_only P) m (fun _ => True).
Proof.
  intros Hm w a w' H. split; [|exact I].
  exists []. split; [exact (Hm _ _ _ H) | constructor].
Qed.

Lemma writes_preserved {A} (m : M A) :
  preserves same_out m -> preserves (writes_only P) m.
Proof. intros Hm w a w' H. now apply (writes_unwritten m Hm w a w' H). Qed.

Lemma wy_switchOn : yields (writes_only P) (switchOn e) (fun _ => True).
Proof. apply writes_unwritten, out_switchOn. Qed.

Lemma wy_belay fuel period :
  yields (writes_only P) (belay e fuel period) (fun _ => True).
Proof. apply writes_unwritten, out_belay. Qed.

Lemma wy_delay ms : yields (writes_only P) (delay e ms) (fun _ => True).
Proof. apply writes_unwritten, out_delay. Qed.

Lemma wy_setLed led v :
  P (led, v) -> yields (writes_only P) (setLed led v) (fun _ => True).
Proof.
  intros Hp w a w' H. rewrite run_setLed in H. inversion H; subst.
  split; [|exact I]. exists [(led, v)]. split; [reflexivity | now constructor].
Qed.

Lemma wy_ledsOff :
  P (rLed, 0) -> P (gLed, 0) -> P (bLed, 0) ->
  yields (writes_only P) ledsOff (fun _ => True).
Proof.
  intros Hr Hg Hb w a w' H. rewrite run_ledsOff in H. inversion H; subst.
  split; [|exact I]. exists [(bLed, 0); (gLed, 0); (rLed, 0)].
  split; [reflexivity | now repeat constructor].
Qed.

Lemma wy_random2 lo hi :
  lo < hi ->
  yields (writes_only P) (random2 e lo hi) (fun v => lo <= v < hi).
Proof.
  intros Hlt w a w' H. split.
  - eapply writes_preserved; [apply out_random2 | exact H].
  - unfold random2 in H. destruct (Z.leb_spec hi lo); [lia|].
    cbv [bind gets modify ret] in H. inversion H; subst.
    pose proof (Z.rem_bound_pos (Z.abs (entropy e (draws w))) (hi - lo)
                  (Z.abs_nonneg _) ltac:(lia)). lia.
Qed.

Lemma wy_random1 hi :
  0 < hi -> yields (writes_only P) (random1 e hi) (fun v => 0 <= v < hi).
Proof.
  intros Hlt w a w' H. split.
  - eapply writes_preserved; [apply out_random1 | exact H].
  - unfold random1 in H. destruct (Z.eqb_spec hi 0); [lia|].
    cbv [bind gets modify ret] in H. inversion H; subst.
    apply Z.rem_bound_pos; [apply Z.abs_nonneg | lia].
Qed.

End WritesOnly.

(** Decompose a goal [yields (writes_only P) m Q] along [m]; the goals
    left are the loops, for which an invariant has to be named, and the
    facts about the values written. *)
Ltac writes_step :=
  lazymatch goal with
  | |- yields _ (ret _) ?Q =>
      tryif is_evar Q
      then apply (yields_ret _ (writes_only_refl _) _ (fun _ => True) I)
      else (apply yields_ret; [apply writes_only_refl |])
  | |- yields _ (switchOn _) _ => apply wy_switchOn
  | |- yields _ (belay _ _ _) _ => apply wy_belay
  | |- yields _ (delay _ _) _ => apply wy_delay
  | |- yields _ (setLed _ _) _ => apply wy_setLed
  | |- yields _ ledsOff _ => apply wy_ledsOff
  | |- yields _ (random2 _ _ _) _ => apply wy_random2
  | |- yields _ (random1 _ _) _ => apply wy_random1
  | |- yields _ (bind _ _) _ =>
      eapply yields_bind; [apply writes_only_trans | | intros ? ?]
  | |- yields _ (for_ (_ :: _) _ _) _ => cbn [for_]
  | |- yields _ (for_ [] _ _) _ => cbn [for_]
  | |- yields _ (if ?c then _ else _) _ => destruct c
  end.

Ltac writes := cbv zeta; repeat (writes_step; cbv beta zeta in *).

(** The loop of an effect over [switchOn()], with the invariant [Inv]
    of its loop-carried variables. *)
Ltac writes_loop inv :=
  apply yields_while with (Inv := inv);
    [ apply writes_only_refl | apply writes_only_trans
    | apply writes_preserved, out_switchOn
    | intros ? ? ? | ].

(** ** Only the three channel pins are driven *)

Lemma on_pins_ledPins i : 0 <= i < 3 -> forall v, on_pins (ledPins i, v).
Proof.
  intros Hi v. assert (H : i = 0 \/ i = 1 \/ i = 2) by lia.
  destruct H as [-> | [-> | ->]]; cbv; auto.
Qed.

Ltac pins :=
  match goal with
  | |- on_pins (ledPins ?i, _) =>
      first [ now (cbv [on_pins ledPins fst nth Z.to_nat Pos.to_nat
                     Pos.iter_op Nat.add]; auto)
            | apply on_pins_ledPins; lia ]
  | |- on_pins _ => cbv [on_pins fst]; now auto
  | |- True => exact I
  | |- _ < _ => lia
  end.

Lemma pins_run_effect x fuel :
  yields (writes_only on_pins) (run_effect e fuel x) (fun _ => True).
Proof.
  destruct x; cbn [run_effect].
  - unfold staticColorProgram. writes; try pins.
    writes_loop (fun _ : unit => True); [writes; pins | exact I].
  - unfold fadeLedProgram. writes; try pins.
    writes_loop (fun _ : Z => True); [|exact I]. writes; try pins.
    all: apply yields_while with (Inv := fun _ : Z * Z => True);
      [ apply writes_only_refl | apply writes_only_trans
      | apply writes_preserved, out_read_remoteState
      | intros ? ? ? | exact I ].
    all: writes; pins.
  - unfold alt_fadeLedProgram. writes; try pins.
    writes_loop (fun _ : Z * Z => True); [|exact I].
    writes; pins.
  - unfold runningColorsProgram. writes; try pins.
    writes_loop (fun _ : unit => True); [|exact I].
    writes; pins.
  - unfold blinkLedProgram. writes; try pins.
    writes_loop (fun _ : unit => True); [|exact I].
    writes; pins.
  - unfold colorBlasterProgram. writes; try pins.
    writes_loop (fun _ : unit => True); [|exact I].
    writes; pins.
  - unfold alt_colorBlasterProgram. writes; try pins.
    writes_loop (fun _ : unit => True); [|exact I].
    writes; pins.
Qed.

(** ** The intensities written *)

Ltac ranges :=
  cbv beta in *;
  match goal with
  | |- in_range _ _ _ =>
      unfold in_range; cbn [snd]; rewrite ?int16_small by lia; lia
  | |- True => exact I
  | |- _ < _ => lia
  end.

(** The effects that do not ramp write only 0..255. *)
Lemma range_plain x fuel :
  match x with
  | StaticColor r g b => 0 <= r <= 255 /\ 0 <= g <= 255 /\ 0 <= b <= 255
  | SequentialFade _ _ | SynchronizedFade _ _ => False
  | _ => True
  end ->
  yields (writes_only (in_range 0 255)) (run_effect e fuel x) (fun _ => True).
Proof.
  destruct x; cbn [run_effect]; intros Hx; try contradiction.
  - unfold staticColorProgram. writes; try ranges.
    writes_loop (fun _ : unit => True); [writes; ranges | exact I].
  - unfold runningColorsProgram. writes; try ranges.
    writes_loop (fun _ : unit => True); [|exact I].
    writes; ranges.
  - unfold blinkLedProgram. writes; try ranges.
    writes_loop (fun _ : unit => True); [|exact I].
    writes; ranges.
  - unfold colorBlasterProgram. writes; try ranges.
    writes_loop (fun _ : unit => True); [|exact I].
    writes; ranges.
  - unfold alt_colorBlasterProgram. writes; try ranges.
    writes_loop (fun _ : unit => True); [|exact I].
    writes; ranges.
Qed.

Lemma top_bounds f : 1 <= f <= 255 -> 255 <= top f <= 254 + f.
Proof. intros Hf. unfold top. destruct (255 mod f =? 0); lia. Qed.

(** Below 255 a multiple of [f] plus [f] does not pass [top f]. *)
Lemma top_step f k :
  1 <= f <= 255 -> k * f < 255 -> k * f + f <= top f.
Proof.
  intros Hf Hk. unfold top. destruct (Z.eqb_spec (255 mod f) 0) as [H0|]; [|lia].
  pose proof (Z.div_mod 255 f ltac:(lia)) as Hdm. rewrite H0 in Hdm.
  assert (k < 255 / f) by nia. nia.
Qed.

Lemma bounce_ramp_alt f s :
  1 <= f <= 255 -> ramp_alt f s ->
  ramp_alt f (bounce s) /\ 0 <= fst (bounce s) <= top f.
Proof.
  intros Hf [[k Hk] Hs]. destruct s as [b fa]. cbn [fst snd] in *.
  pose proof (top_bounds f Hf) as Ht.
  unfold bounce, ramp_alt. cbn [fst snd].
  destruct Hs as [[-> Hb] | [-> Hb]].
  - pose proof (top_step f k Hf ltac:(lia)) as Hstep.
    rewrite (int16_small (b + f)), (int16_small (- f)) by lia.
    destruct (Z.leb_spec (b + f) 0); [lia|].
    destruct (Z.leb_spec 255 (b + f)); cbn [orb];
      (split; [split; [exists (k + 1); lia | lia] | lia]).
  - assert (1 <= k) by nia. assert (f <= b) by nia.
    replace (b + - f) with (b - f) by lia.
    rewrite (int16_small (b - f)), (int16_small (- - f)) by lia.
    destruct (Z.leb_spec (b - f) 0); cbn [orb].
    + split; [split; [exists (k - 1); lia | lia] | lia].
    + destruct (Z.leb_spec 255 (b - f)); [lia|].
      split; [split; [exists (k - 1); lia | lia] | lia].
Qed.


Lemma range_alt_fade fuel f d :
  1 <= f <= 255 ->
  yields (writes_only (in_range 0 (top f))) (alt_fadeLedProgram e fuel f d)
    (fun _ => True).
Proof.
  intros Hf. pose proof (top_bounds f Hf) as Ht.
  unfold alt_fadeLedProgram. writes; try ranges.
  writes_loop (ramp_alt f).
  - match goal with
    | Hs : ramp_alt f ?s |- _ =>
        destruct (bounce_ramp_alt f s Hf Hs) as [Hinv Hb]
    end.
    writes; try exact Hinv; unfold in_range; cbn [snd]; lia.
  - split; [exists 0; cbn; lia | left; cbn; lia].
Qed.


End Writes.

Section Manager.

Variable e : Env.

Ltac unwritten :=
  preserve_by same_out_refl same_out_trans
    ltac:(apply preserves_modify; intros ?; unfold same_out;
          first [apply out_elapse | reflexivity]).

(** ** Static color *)

Lemma staticColorProgram_writes fuel r g b w w' :
  staticColorProgram e fuel r g b w = Some (tt, w') ->
  out w' = (bLed, 0) :: (gLed, 0) :: (rLed, 0)
           :: (bLed, b) :: (gLed, g) :: (rLed, r) :: out w.
Proof.
  unfold staticColorProgram. intros H.
  do 3 (rewrite (bind_run _ _ _ _ _ (run_setLed _ _ _)) in H).
  apply bind_Some in H as (u & w1 & Hloop & H).
  rewrite run_ledsOff in H. inversion H; subst w'. cbn [out set_out analogWrite set_moments].
  apply (preserves_apply same_out) in Hloop; [now rewrite Hloop|].
  unwritten.
Qed.

(** ** Hibernation *)

Lemma hibernate_S fuel w :
  hibernate e (S fuel) w =
  if remoteState (elapse e w) then Some (tt, elapse e w)
  else hibernate e fuel (after e 2 w).
Proof.
  unfold hibernate. cbn [while_]. unfold bind at 1 2.
  rewrite run_read_remoteState. unfold ret at 1.
  destruct (remoteState (elapse e w)); cbn [negb]; [reflexivity|].
  unfold bind at 1 2. now rewrite run_delay.
Qed.

Lemma hibernate_ends fuel :
  forall w w',
    hibernate e fuel w = Some (tt, w') ->
    remoteState w' = true /\ time_passes e w w'.
Proof.
  induction fuel as [|n IH]; intros w w' H; [discriminate|].
  rewrite hibernate_S in H.
  destruct (remoteState (elapse e w)) eqn:Hflag.
  - inversion H; subst w'. split; [exact Hflag | apply time_passes_elapse].
  - apply IH in H as [Hon Hpass]. split; [exact Hon|].
    eapply time_passes_trans; [|exact Hpass]. now exists 2%nat.
Qed.

Lemma hibernate_wakes j :
  forall fuel w,
    (forall i, (i < j)%nat -> remoteState (after e (1 + 2 * i) w) = false) ->
    remoteState (after e (1 + 2 * j) w) = true ->
    (j < fuel)%nat ->
    hibernate e fuel w = Some (tt, after e (1 + 2 * j) w).
Proof.
  induction j as [|j IH]; intros fuel w Hoff Hon Hfuel;
    (destruct fuel as [|n]; [lia|]); rewrite hibernate_S.
  - change (after e (1 + 2 * 0) w) with (elapse e w) in Hon. now rewrite Hon.
  - pose proof (Hoff O ltac:(lia)) as H0.
    change (after e (1 + 2 * 0) w) with (elapse e w) in H0. rewrite H0.
    rewrite (IH n (after e 2 w)); [| | | lia].
    + rewrite after_add. do 2 f_equal. f_equal. lia.
    + intros i Hi. rewrite after_add.
      replace (1 + 2 * i + 2)%nat with (1 + 2 * S i)%nat by lia.
      apply Hoff. lia.
    + rewrite after_add.
      now replace (1 + 2 * j + 2)%nat with (1 + 2 * S j)%nat by lia.
Qed.

(** ** One pass of the program manager *)

Lemma dark_same_out w w' : same_out w w' -> dark w -> dark w'.
Proof. unfold same_out, dark. now intros ->. Qed.

(** What a pass leaves behind: the counter in 0..7, and all channels at
    0 when they were at 0 before the pass. *)
Lemma loop_body_keeps fuel p w p' w' :
  loop_body e fuel p w = Some (p', w') ->
  (0 <= p <= 7 -> 0 <= p' <= 7) /\ (dark w -> dark w').
Proof.
  unfold loop_body. intros H.
  apply bind_Some in H as (on & w1 & Hon & H).
  apply out_switchOn in Hon.
  destruct on.
  - destruct (dispatch e fuel p) as [effect|] eqn:Hd.
    + apply dispatch_Some in Hd as (Hp & n & name & x & ->).
      apply bind_Some in H as ([] & w2 & Hrun & H).
      inversion H; subst p' w'. clear H.
      rewrite int16_small by lia. split; [lia|]. intros _.
      apply bind_Some in Hrun as ([] & w3 & _ & Hrun).
      apply run_effect_exit in Hrun as [Hdark _].
      now apply ends_dark_channels.
    + inversion H; subst p' w'. split; [lia|]. now apply dark_same_out.
  - assert (Hout : same_out w1 w').
    { eapply preserves_apply; [|exact H]. unwritten. }
    split.
    + intros Hp. apply bind_Some in H as (d & w2 & _ & H).
      destruct (10000 <? d).
      * do 3 (apply bind_Some in H as (? & ? & _ & H)). inversion H. lia.
      * inversion H. lia.
    + intros Hdark. eapply dark_same_out; [|exact Hdark].
      eapply same_out_trans; eauto.
Qed.

Lemma loop_keeps fuel passes :
  forall p w p' w',
    loop e passes fuel p w = Some (p', w') ->
    (0 <= p <= 7 -> 0 <= p' <= 7) /\ (dark w -> dark w').
Proof.
  induction passes as [|n IH]; intros p w p' w' H; cbn [loop] in H.
  - inversion H; subst. auto.
  - apply bind_Some in H as (p1 & w1 & H1 & H).
    apply loop_body_keeps in H1 as [Hc1 Hd1].
    apply IH in H as [Hc Hd]. auto.
Qed.

End Manager.

(** ** The ramp *)

Lemma climb_bounds f :
  1 <= f <= 255 ->
  1 <= climb f /\ (climb f - 1) * f <= 254 /\ 255 <= climb f * f.
Proof.
  intros Hf. unfold climb.
  pose proof (Z.div_mod 254 f ltac:(lia)) as Hdm.
  pose proof (Z.mod_pos_bound 254 f ltac:(lia)) as Hm.
  pose proof (Z.div_pos 254 f ltac:(lia) ltac:(lia)) as Hq.
  repeat split; nia.
Qed.

Lemma top_divides f : 1 <= f -> (f | 255) -> top f = 255.
Proof.
  intros Hf Hd. unfold top.
  now rewrite (proj2 (Z.mod_divide 255 f ltac:(lia)) Hd).
Qed.

Lemma ramp_up f j :
  1 <= f <= 255 -> Z.of_nat j * f <= 254 ->
  Nat.iter j bounce (0, f) = (Z.of_nat j * f, f).
Proof.
  intros Hf. induction j as [|j IH]; intros Hj; [reflexivity|].
  rewrite Nat.iter_succ, IH by nia. unfold bounce. cbn [fst snd].
  rewrite int16_small by nia.
  destruct (Z.leb_spec (Z.of_nat j * f + f) 0); [nia|].
  destruct (Z.leb_spec 255 (Z.of_nat j * f + f)); [nia|].
  cbn [orb]. f_equal. lia.
Qed.

Lemma ramp_down f k j :
  1 <= f <= 255 -> (k - 1) * f <= 254 -> Z.of_nat j <= k - 1 ->
  Nat.iter j bounce (k * f, - f) = ((k - Z.of_nat j) * f, - f).
Proof.
  intros Hf Hk. induction j as [|j IH]; intros Hj.
  - change (Nat.iter 0 bounce (k * f, - f)) with (k * f, - f). f_equal. lia.
  - rewrite Nat.iter_succ, IH by lia. unfold bounce. cbn [fst snd].
    assert (Hb : 1 <= (k - Z.of_nat j) * f + - f <= 254) by nia.
    rewrite int16_small by lia.
    destruct (Z.leb_spec ((k - Z.of_nat j) * f + - f) 0); [lia|].
    destruct (Z.leb_spec 255 ((k - Z.of_nat j) * f + - f)); [lia|].
    cbn [orb]. f_equal. lia.
Qed.

Lemma ramp_cycle f :
  1 <= f <= 255 ->
  Nat.iter (Z.to_nat (climb f)) bounce (0, f) = (climb f * f, - f) /\
  Nat.iter (Z.to_nat (climb f) + Z.to_nat (climb f)) bounce (0, f) = (0, f).
Proof.
  intros Hf. destruct (climb_bounds f Hf) as (Hk1 & Hk2 & Hk3).
  set (k := climb f) in *.
  assert (Hn : Z.to_nat k = S (Z.to_nat (k - 1))) by lia.
  assert (Hpeak : Nat.iter (Z.to_nat k) bounce (0, f) = (k * f, - f)).
  { rewrite Hn, Nat.iter_succ, ramp_up by (try lia; nia).
    rewrite Z2Nat.id by lia. unfold bounce. cbn [fst snd].
    replace ((k - 1) * f + f) with (k * f) by lia.
    rewrite !int16_small by nia.
    destruct (Z.leb_spec (k * f) 0); [lia|].
    destruct (Z.leb_spec 255 (k * f)); [reflexivity | lia]. }
  split; [exact Hpeak|].
  rewrite Nat.iter_add, Hpeak, Hn, Nat.iter_succ.
  rewrite (ramp_down f k) by lia. rewrite Z2Nat.id by lia.
  unfold bounce. cbn [fst snd].
  replace ((k - (k - 1)) * f + - f) with 0 by lia.
  rewrite !int16_small by lia. cbn. f_equal. lia.
Qed.

(** ** The signal monitor and the wait at their edges *)

Lemma ulong_elapsed c d :
  0 <= d < 4294967296 -> ulong (ulong (c + d) - ulong c) = d.
Proof.
  intros Hd. unfold ulong. rewrite <- Zminus_mod.
  replace (c + d - c) with d by lia. now apply Z.mod_small.
Qed.

Lemma run_millisSinceLastOn e w :
  millisSinceLastOn e w =
  Some (ulong (ulong (clock e (S (now w))) - lastOn w), elapse e w).
Proof.
  unfold millisSinceLastOn, bind. rewrite run_millis. cbn [gets ret].
  now rewrite lastOn_elapse.
Qed.

(** ** The color blasters *)

Section Blasters.

Variable e : Env.

Ltac lit :=
  cbv beta in *;
  match goal with
  | |- in_range _ _ _ =>
      unfold in_range; cbn [snd]; rewrite ?int16_small by lia; lia
  | |- True => exact I
  | |- _ < _ => lia
  end.

Ltac lit_writes_step :=
  lazymatch goal with
  | |- yields _ (ret _) ?Q =>
      tryif is_evar Q
      then apply (yields_ret _ (writes_only_refl _) _ (fun _ => True) I)
      else (apply yields_ret; [apply writes_only_refl |])
  | |- yields _ (belay _ _ _) _ => apply wy_belay
  | |- yields _ (setLed _ _) _ => apply wy_setLed
  | |- yields _ (random2 _ _ _) _ => apply wy_random2
  | |- yields _ (random1 _ _) _ => apply wy_random1
  | |- yields _ (bind _ _) _ =>
      eapply yields_bind; [apply writes_only_trans | | intros ? ?]
  end.

Ltac lit_writes := repeat (lit_writes_step; cbv beta zeta in *).

(** The loop of [colorBlasterProgram]. *)
Lemma lit_jump_loop fuel d :
  yields (writes_only (in_range 1 255))
    (while_ fuel (switchOn e)
       (fun n (_ : unit) =>
          r <- random2 e 1 256 ;; setLed rLed (int16 r) ;;
          g <- random2 e 1 256 ;; setLed gLed (int16 g) ;;
          b <- random2 e 1 256 ;; setLed bLed (int16 b) ;;
          belay e n d ;;
          ret (Continue tt))
       tt)
    (fun _ => True).
Proof.
  apply yields_while with (Inv := fun _ : unit => True);
    [ apply writes_only_refl | apply writes_only_trans
    | apply writes_preserved, out_switchOn | intros ? ? ? | exact I ].
  lit_writes; lit.
Qed.

(** The loop of [alt_colorBlasterProgram]. *)
Lemma lit_walk_loop fuel d :
  yields (writes_only (in_range 1 255))
    (while_ fuel (switchOn e)
       (fun n (_ : unit) =>
          i <- random1 e 3 ;;
          v <- random2 e 1 256 ;;
          setLed (ledPins i) (int16 v) ;;
          belay e n d ;;
          ret (Continue tt))
       tt)
    (fun _ => True).
Proof.
  apply yields_while with (Inv := fun _ : unit => True);
    [ apply writes_only_refl | apply writes_only_trans
    | apply writes_preserved, out_switchOn | intros ? ? ? | exact I ].
  lit_writes; lit.
Qed.

Lemma colorBlasterProgram_lit fuel d w w' :
  colorBlasterProgram e fuel d w = Some (tt, w') ->
  exists later,
    out w' = (bLed, 0) :: (gLed, 0) :: (rLed, 0) :: later ++ out w /\
    Forall (in_range 1 255) later.
Proof.
  unfold colorBlasterProgram. intros H.
  apply bind_Some in H as ([] & w1 & Hloop & H).
  rewrite run_ledsOff in H. inversion H; subst w'. cbn [out set_out analogWrite set_moments].
  destruct (lit_jump_loop fuel d _ _ _ Hloop) as [(later & Hout & Hall) _].
  exists later. now rewrite Hout.
Qed.

Lemma alt_colorBlasterProgram_lit fuel d w w' :
  alt_colorBlasterProgram e fuel d w = Some (tt, w') ->
  exists later,
    out w' = (bLed, 0) :: (gLed, 0) :: (rLed, 0) :: later ++ out w /\
    Forall (in_range 1 255) later.
Proof.
  unfold alt_colorBlasterProgram. intros H.
  do 3 (rewrite (bind_run _ _ _ _ _ (run_random2_intensity e _)) in H;
        rewrite (bind_run _ _ _ _ _ (run_setLed _ _ _)) in H).
  apply bind_Some in H as ([] & w1 & Hloop & H).
  rewrite run_ledsOff in H. inversion H; subst w'. cbn [out set_out analogWrite set_moments].
  destruct (lit_walk_loop fuel d _ _ _ Hloop) as [(later & Hout & Hall) _].
  cbn [out set_out set_draws draws analogWrite set_moments] in Hout.
  eexists (later ++ [_; _; _]). split.
  - rewrite Hout, <- app_assoc. reflexivity.
  - apply Forall_app. split; [exact Hall|].
    repeat constructor; apply (intensity_range e).
Qed.

End Blasters.

(** * Further properties: the statements *)

(** X1.  Whatever its parameters, the line and the random draws, an
    effect routine writes to no pin but 9, 10 and 11. *)
Theorem effects_write_channel_pins_only e x fuel w w' :
  run_effect e fuel x w = Some (tt, w') -> writes_only on_pins w w'.
Proof. intros H. now apply (pins_run_effect e x fuel w tt w'). Qed.

Lemma effects_write_channel_pins_only_witness :
  exists w',
    run_effect (pulse 1 40 10) 60 (RandomColorWalk 250) boot = Some (tt, w') /\
    writes_only on_pins boot w'.
Proof.
  eexists. split.
  - vm_compute. reflexivity.
  - apply (effects_write_channel_pins_only (pulse 1 40 10)
             (RandomColorWalk 250) 60).
    vm_compute. reflexivity.
Defined.

(** X2.  Running colors, blink and the two color blasters write only
    intensities in 0..255, whatever the delay and the random draws; so
    does static color when its triple lies in 0..255. *)
Theorem plain_effects_write_0_to_255 e x fuel w w' :
  match x with
  | StaticColor r g b => 0 <= r <= 255 /\ 0 <= g <= 255 /\ 0 <= b <= 255
  | SequentialFade _ _ | SynchronizedFade _ _ => False
  | _ => True
  end ->
  run_effect e fuel x w = Some (tt, w') ->
  writes_only (in_range 0 255) w w'.
Proof. intros Hx H. now apply (range_plain e x fuel Hx w tt w'). Qed.

Lemma plain_effects_write_0_to_255_witness :
  exists w',
    run_effect (pulse 1 40 10) 60 (RandomColorJump 500) boot = Some (tt, w') /\
    writes_only (in_range 0 255) boot w'.
Proof.
  eexists. split.
  - vm_compute. reflexivity.
  - apply (plain_effects_write_0_to_255 (pulse 1 40 10)
             (RandomColorJump 500) 60); [exact I|].
    vm_compute. reflexivity.
Defined.

(** X3.  For a step [f] in 1..255, [alt_fadeLedProgram] writes only
    intensities from 0 to [top f]: never a negative one, at most
    [254 + f], and at most 255 when [f] divides 255. *)
Theorem alt_fade_writes_0_to_top e fuel f d w w' :
  1 <= f <= 255 ->
  alt_fadeLedProgram e fuel f d w = Some (tt, w') ->
  writes_only (in_range 0 (top f)) w w' /\
  255 <= top f <= 254 + f /\ ((f | 255) -> top f = 255).
Proof.
  intros Hf H. split; [now apply (range_alt_fade e fuel f d Hf w tt w')|].
  split; [now apply top_bounds | apply top_divides; lia].
Qed.

Lemma alt_fade_writes_0_to_top_witness :
  exists w',
    alt_fadeLedProgram (pulse 1 1500 10) 1600 2 30 boot = Some (tt, w') /\
    writes_only (in_range 0 (top 2)) boot w'.
Proof.
  eexists. split.
  - vm_compute. reflexivity.
  - apply (alt_fade_writes_0_to_top (pulse 1 1500 10) 1600 2 30); [lia|].
    vm_compute. reflexivity.
Defined.



(** X5.  A call of [switchOn()] during which the clock stands at [t],
    not wrapped and not behind the timestamps: it records a rise
    ([lastOn = t]) exactly when the flag it tests is on and
    [lastOn <= lastOff], a drop ([lastOff = t]) exactly when that flag
    is off and [lastOff < lastOn], and otherwise leaves both timestamps
    as they are. *)
Theorem switchOn_edge_rule e w b w' t :
  clock e (S (S (now w))) = t ->
  clock e (S (S (S (now w)))) = t ->
  clock e (S (S (S (S (now w))))) = t ->
  0 <= lastOn w <= t -> 0 <= lastOff w <= t -> t < 4294967296 ->
  switchOn e w = Some (b, w') ->
  lastOn w' = (if remoteState (elapse e w) && (lastOn w <=? lastOff w)
               then t else lastOn w) /\
  lastOff w' = (if negb (remoteState (elapse e w)) && (lastOff w <? lastOn w)
                then t else lastOff w).
Proof.
  intros H1 H2 H3 Hon Hoff Ht Hrun.
  rewrite switchOn_run in Hrun. injection Hrun as _ Hw'. subst w'.
  rewrite lastOn_elapse, lastOff_elapse. unfold switchOn_mid.
  rewrite H1, H2, H3, (ulong_small t) by lia. rewrite !ulong_small by lia.
  destruct (remoteState (elapse e w)); cbn [negb andb].
  - destruct (Z.leb_spec (t - lastOff w) (t - lastOn w));
      destruct (Z.leb_spec (lastOn w) (lastOff w)); try lia;
      cbn [lastOn lastOff set_log set_lastOn];
      rewrite ?lastOn_after, ?lastOff_after; auto.
  - destruct (Z.ltb_spec (t - lastOn w) (t - lastOff w));
      destruct (Z.ltb_spec (lastOff w) (lastOn w)); try lia;
      cbn [lastOn lastOff set_log set_lastOff];
      rewrite ?lastOn_after, ?lastOff_after; auto.
Qed.

Lemma switchOn_edge_rule_witness :
  exists b w',
    switchOn tie_off (after tie_off 9 (set_lastOn 200 boot)) = Some (b, w') /\
    lastOn w' = 200 /\ lastOff w' = 400.
Proof.
  do 2 eexists. split; [vm_compute; reflexivity|].
  refine (switchOn_edge_rule tie_off (after tie_off 9 (set_lastOn 200 boot))
            _ _ 400 _ _ _ _ _ _ _);
    vm_compute; try reflexivity; try (split; discriminate).
Defined.

(** X6.  The elapsed-time readers are right across a wrap of the clock:
    when the timestamp holds the reading taken at time [c] and the clock
    now stands [d] milliseconds later, with [d] below 2^32, both
    [millisSinceLastOff()] and [millisSinceLastOn()] return [d], whether
    or not the 32-bit counter has wrapped in between. *)
Theorem elapsed_time_survives_wrap e w c d :
  0 <= d < 4294967296 ->
  clock e (S (now w)) = c + d ->
  (lastOff w = ulong c -> millisSinceLastOff e w = Some (d, elapse e w)) /\
  (lastOn w = ulong c -> millisSinceLastOn e w = Some (d, elapse e w)).
Proof.
  intros Hd Hc. split; intros Hl.
  - now rewrite run_millisSinceLastOff, Hc, Hl, ulong_elapsed.
  - now rewrite run_millisSinceLastOn, Hc, Hl, ulong_elapsed.
Qed.

Lemma elapsed_time_survives_wrap_witness :
  millisSinceLastOff wrapping (set_lastOff 4294967200 (after wrapping 10 boot))
  = Some (196, after wrapping 11 (set_lastOff 4294967200 boot)).
Proof.
  refine (eq_trans
            (proj1 (elapsed_time_survives_wrap wrapping
                      (set_lastOff 4294967200 (after wrapping 10 boot))
                      4294967200 196 _ _) _) _);
    try (vm_compute; reflexivity).
  split; [discriminate | reflexivity].
Defined.

(** X7.  [belay] at its edges.  When the first test of its loop reads
    the flag off, it returns at once, for every period, without reading
    the clock a second time; and [belay(0)] returns after that first
    test even when the flag is on. *)
Theorem belay_first_test e fuel p w :
  (remoteState (after e 2 w) = false ->
   belay e (S fuel) p w = Some (tt, after e 2 w)) /\
  (remoteState (after e 2 w) = true ->
   belay e (S fuel) 0 w = Some (tt, after e 3 w)).
Proof.
  split; intros Hflag; rewrite belay_unfold, belay_loop_S;
    unfold belay_exit, belay_end, belay_flag;
    change (2 + 2 * 0)%nat with 2%nat; change (3 + 2 * 0)%nat with 3%nat;
    rewrite Hflag; cbn [negb orb]; [reflexivity|].
  change (ulong 0) with 0.
  destruct (Z.leb_spec 0 (belay_elapsed e w 0)); [reflexivity|].
  unfold belay_elapsed, ulong in *.
  pose proof (Z.mod_pos_bound
                (clock e (now w + 3 + 2 * 0) mod 4294967296 -
                 clock e (now w + 1) mod 4294967296) 4294967296 ltac:(lia)).
  lia.
Qed.

Lemma belay_first_test_witness :
  belay (pulse 1 40 10) 1 0 boot = Some (tt, after (pulse 1 40 10) 3 boot).
Proof.
  apply (proj2 (belay_first_test (pulse 1 40 10) 0 0 boot)).
  vm_compute. reflexivity.
Defined.

(** X8.  The program counter of the program manager never leaves 0..7:
    from a counter in that range every number of passes ends with a
    counter in that range, so [program += 1] cannot overflow. *)
Theorem counter_stays_in_0_to_7 e passes fuel p w p' w' :
  0 <= p <= 7 ->
  loop e passes fuel p w = Some (p', w') ->
  0 <= p' <= 7.
Proof. intros Hp H. now apply (loop_keeps e fuel passes p w p' w' H). Qed.

Lemma counter_stays_in_0_to_7_witness :
  exists w', loop (pulse 1 6 10) 3 10 7 boot = Some (0, w') /\ 0 <= 0 <= 7.
Proof.
  eexists. split; [vm_compute; reflexivity|].
  refine (counter_stays_in_0_to_7 (pulse 1 6 10) 3 10 7 boot 0 _ _ _);
    [lia | vm_compute; reflexivity].
Defined.

(** X9.  Between the passes of the program manager all three channels
    are at 0: when they are at 0 before a run of passes (as they are at
    boot), they are at 0 after it, whichever effects ran. *)
Theorem manager_leaves_channels_dark e passes fuel p w p' w' :
  dark w ->
  loop e passes fuel p w = Some (p', w') ->
  dark w'.
Proof. intros Hd H. now apply (loop_keeps e fuel passes p w p' w' H). Qed.

Lemma manager_leaves_channels_dark_witness :
  exists p' w', loop (glitch 11 16 925) 9 2000 0 boot = Some (p', w') /\ dark w'.
Proof.
  do 2 eexists. split; [vm_compute; reflexivity|].
  refine (manager_leaves_channels_dark (glitch 11 16 925) 9 2000 0 boot _ _ _ _);
    [now repeat split | vm_compute; reflexivity].
Defined.

(** X10.  Hibernation polls the flag, then waits, then polls again.  It
    returns at the first poll that reads the flag on, and every return
    is of this kind: the flag is on and nothing but time has passed. *)
Theorem hibernation_ends_at_first_high_poll e w :
  (forall fuel w',
      hibernate e fuel w = Some (tt, w') ->
      remoteState w' = true /\ time_passes e w w') /\
  (forall j fuel,
      (forall i, (i < j)%nat -> remoteState (after e (1 + 2 * i) w) = false) ->
      remoteState (after e (1 + 2 * j) w) = true ->
      (j < fuel)%nat ->
      hibernate e fuel w = Some (tt, after e (1 + 2 * j) w)).
Proof.
  split.
  - intros fuel w'. apply hibernate_ends.
  - intros j fuel. apply hibernate_wakes.
Qed.

Lemma hibernation_ends_at_first_high_poll_witness :
  hibernate (pulse 7 40 10) 10 boot = Some (tt, after (pulse 7 40 10) 7 boot).
Proof.
  apply (proj2 (hibernation_ends_at_first_high_poll (pulse 7 40 10) boot)
           3%nat 10%nat); [| vm_compute; reflexivity | lia].
  intros i Hi.
  do 3 (destruct i as [|i]; [vm_compute; reflexivity|]). lia.
Defined.

(** X11.  However long the line stays high, [staticColorProgram] writes
    its triple once and then nothing until the three zero writes of
    [ledsOff]. *)
Theorem static_color_writes_once e fuel r g b w w' :
  staticColorProgram e fuel r g b w = Some (tt, w') ->
  out w' = (bLed, 0) :: (gLed, 0) :: (rLed, 0)
           :: (bLed, b) :: (gLed, g) :: (rLed, r) :: out w.
Proof. apply staticColorProgram_writes. Qed.

Lemma static_color_writes_once_witness :
  exists w',
    staticColorProgram (pulse 1 400 10) 500 25 255 25 boot = Some (tt, w') /\
    out w' = [(bLed, 0); (gLed, 0); (rLed, 0);
              (bLed, 25); (gLed, 255); (rLed, 25)].
Proof.
  eexists. split; [vm_compute; reflexivity|].
  apply (static_color_writes_once (pulse 1 400 10) 500 25 255 25 boot).
  vm_compute. reflexivity.
Defined.

(** X12.  The bounce step is periodic.  From brightness 0 with a step
    [f] in 1..255 it climbs [climb f = 254 / f + 1] times, to the first
    multiple of [f] at or above 255, where the step turns negative, and
    as many steps down it is back at brightness 0 with the step [f]. *)
Theorem ramp_returns_to_zero f :
  1 <= f <= 255 ->
  Nat.iter (Z.to_nat (climb f)) bounce (0, f) = (climb f * f, - f) /\
  255 <= climb f * f <= 254 + f /\
  Nat.iter (Z.to_nat (climb f) + Z.to_nat (climb f)) bounce (0, f) = (0, f).
Proof.
  intros Hf. destruct (ramp_cycle f Hf) as [Hpeak Hcycle].
  destruct (climb_bounds f Hf) as (Hk1 & Hk2 & Hk3).
  repeat split; try assumption. lia.
Qed.

Lemma ramp_returns_to_zero_witness :
  Nat.iter 128 bounce (0, 2) = (256, - 2) /\
  Nat.iter 256 bounce (0, 2) = (0, 2).
Proof.
  destruct (ramp_returns_to_zero 2 ltac:(lia)) as (Hpeak & _ & Hcycle).
  split; [exact Hpeak | exact Hcycle].
Defined.

(** X13.  A pass of the program manager that finds the flag off runs no
    effect.  While the time since [lastOff] (modulo 2^32) is at most
    10000 ms it leaves the counter as it is; beyond that it logs
    HIBERNATE, hibernates, and ends with the counter at 0. *)
Theorem pass_with_flag_off e fuel p w w1 :
  switchOn e w = Some (false, w1) ->
  (ulong (ulong (clock e (S (now w1))) - lastOff w1) <= 10000 ->
   loop_body e fuel p w = Some (p, elapse e w1)) /\
  (10000 < ulong (ulong (clock e (S (now w1))) - lastOff w1) ->
   forall w2,
     hibernate e fuel
       (set_log (HIBERNATE (ulong (clock e (S (S (now w1))))) :: log w1)
          (after e 2 w1)) = Some (tt, w2) ->
     loop_body e fuel p w = Some (0, w2)) /\
  (forall p' w', loop_body e fuel p w = Some (p', w') -> out w' = out w).
Proof.
  intros Hoff. destruct (pass_while_off e fuel p w w1 Hoff) as [H1 H2].
  split; [exact H1|]. split; [exact H2|].
  intros p' w' H. unfold loop_body in H.
  rewrite (bind_run _ _ _ _ _ Hoff) in H.
  apply out_switchOn in Hoff.
  assert (Hout : same_out w1 w').
  { eapply preserves_apply; [|exact H].
    preserve_by same_out_refl same_out_trans
      ltac:(apply preserves_modify; intros ?; unfold same_out;
            first [apply out_elapse | reflexivity]). }
  unfold same_out in *. congruence.
Qed.

Lemma pass_with_flag_off_witness :
  exists w1, loop_body (pulse 50 60 10) 5 3 boot
             = Some (3, elapse (pulse 50 60 10) w1).
Proof.
  eexists.
  refine (proj1 (pass_with_flag_off (pulse 50 60 10) 5 3 boot _ _) _).
  - vm_compute. reflexivity.
  - vm_compute. discriminate.
Defined.

(** X14.  The color blasters never switch a channel off while they
    run: every write of [colorBlasterProgram] and of
    [alt_colorBlasterProgram] before the three closing writes of
    [ledsOff] is an intensity in 1..255. *)
Theorem color_blasters_stay_lit e fuel d w :
  (forall w',
      colorBlasterProgram e fuel d w = Some (tt, w') ->
      exists later,
        out w' = (bLed, 0) :: (gLed, 0) :: (rLed, 0) :: later ++ out w /\
        Forall (in_range 1 255) later) /\
  (forall w',
      alt_colorBlasterProgram e fuel d w = Some (tt, w') ->
      exists later,
        out w' = (bLed, 0) :: (gLed, 0) :: (rLed, 0) :: later ++ out w /\
        Forall (in_range 1 255) later).
Proof.
  split; intros w'.
  - apply colorBlasterProgram_lit.
  - apply alt_colorBlasterProgram_lit.
Qed.

Lemma color_blasters_stay_lit_witness :
  exists w' later,
    alt_colorBlasterProgram (pulse 1 40 10) 60 250 boot = Some (tt, w') /\
    out w' = (bLed, 0) :: (gLed, 0) :: (rLed, 0) :: later ++ out boot /\
    Forall (in_range 1 255) later.
Proof.
  assert (H : exists w',
             alt_colorBlasterProgram (pulse 1 40 10) 60 250 boot
             = Some (tt, w')) by (eexists; vm_compute; reflexivity).
  destruct H as [w' H].
  destruct (proj2 (color_blasters_stay_lit (pulse 1 40 10) 60 250 boot) w' H)
    as (later & Hout & Hall).
  exists w', later. split; [exact H | split; assumption].
Defined.
